(** * Chesster: message dispatch and context resolution

    A shallow embedding of the message-routing core of the Chesster Slack
    bot:

    - [src/utils/SlackEventsAPIUtils/chessterUtils.ts]: text normalisation,
      context classification, listener matching, the middleware fold and
      the top-level [processChessterMessage];
    - the Slack module of the bot (middleware [requiresModerator] and
      [requiresLeague], the league resolver [getLeague] /
      [findLeagueByMessageText], the entity index [SlackEntityLookup] and
      the dispatcher [SlackBot.handleMatch]).

    JavaScript strings are modelled by [string]; every operation used here
    (first-occurrence replacement, equality, concatenation) only compares
    code units, so the encoding is immaterial.  Objects used as
    dictionaries are finite maps ([gmap string _]) holding their own
    properties; the four maps of the entity index are plain objects
    created by the program and read with keys that come from users, and
    reading them goes through [get_property], which falls back on what a
    plain object inherits from [Object.prototype].  Side effects (log
    lines, replies, callback invocations) are recorded in an explicit
    trace, and exceptions are an explicit outcome. *)

From Stdlib Require Import String Ascii.
From stdpp Require Import gmap strings list pretty.

Local Open Scope string_scope.
Local Open Scope list_scope.
Local Set Warnings "-clear-no-such-hyp".

(** ** JavaScript string primitives *)

Module JsString.

(** [s.slice(n)] for [0 <= n]. *)
Fixpoint slice (n : nat) (s : string) : string :=
  match n, s with
  | O, _ => s
  | S n', String _ s' => slice n' s'
  | S _, EmptyString => EmptyString
  end.

(** [s.startsWith(p)]. *)
Fixpoint startsWith (s p : string) {struct p} : bool :=
  match p, s with
  | EmptyString, _ => true
  | String a p', String b s' => if Ascii.eqb a b then startsWith s' p' else false
  | String _ _, EmptyString => false
  end.

(** [s.replace(pat, '')] with a string pattern: the first occurrence of
    [pat] (scanning from the left) is removed, the rest is kept. *)
Fixpoint replace_first (s pat : string) : string :=
  if startsWith s pat then slice (String.length pat) s
  else match s with
       | EmptyString => EmptyString
       | String c s' => String c (replace_first s' pat)
       end.

(** [pat] occurs somewhere in [s] ([s.includes(pat)]). *)
Definition occurs (pat s : string) : Prop :=
  exists pre post, s = pre +:+ pat +:+ post.

(** [s.includes(pat)]: try every position. *)
Fixpoint includes (s pat : string) : bool :=
  startsWith s pat ||
  match s with EmptyString => false | String _ s' => includes s' pat end.

(** Truthiness of a string value: every string but the empty one. *)
Definition truthy (s : string) : bool :=
  match s with EmptyString => false | String _ _ => true end.

(** ASCII case mapping, the part of [toUpperCase] / [toLowerCase] that
    Slack identifiers and names exercise. *)
Definition upper_ascii (c : ascii) : ascii :=
  let n := nat_of_ascii c in
  if (97 <=? n)%nat && (n <=? 122)%nat then ascii_of_nat (n - 32) else c.

Definition lower_ascii (c : ascii) : ascii :=
  let n := nat_of_ascii c in
  if (65 <=? n)%nat && (n <=? 90)%nat then ascii_of_nat (n + 32) else c.

Fixpoint toUpperCase (s : string) : string :=
  match s with
  | EmptyString => EmptyString
  | String c s' => String (upper_ascii c) (toUpperCase s')
  end.

Fixpoint toLowerCase (s : string) : string :=
  match s with
  | EmptyString => EmptyString
  | String c s' => String (lower_ascii c) (toLowerCase s')
  end.

(** [s.split(' ')]: never empty, [''.split(' ')] is [['']]. *)
Fixpoint split_space (s : string) : list string :=
  match s with
  | EmptyString => [EmptyString]
  | String c s' =>
      if Ascii.eqb c " "%char then EmptyString :: split_space s'
      else match split_space s' with
           | [] => [String c EmptyString]
           | w :: ws => String c w :: ws
           end
  end.

End JsString.

(** ** Shared data model *)

(** [HearsEventType]: the message categories a listener can accept. *)
Inductive HearsEventType : Type :=
| ambient
| direct_message
| direct_mention
| bot_message.

Global Instance HearsEventType_eq_dec : EqDecision HearsEventType.
Proof. solve_decision. Defined.

(** The value of [text.match(pattern)] when it is not [null]: the whole
    match followed by the capture groups ([undefined] for a group that did
    not take part). *)
Definition RegExpMatchArray : Type := list (option string).

(** A pattern is modelled by what [text.match(pattern)] returns on each
    text.  The patterns of the bot are built with the [i] flag only, for
    which matching is a function of the text. *)
Record RegExp : Type := {
  source : string;
  exec : string -> option RegExpMatchArray;
}.

(** [text.match(pattern)]. *)
Definition String_match (text : string) (pattern : RegExp)
  : option RegExpMatchArray := exec pattern text.

(** The fields of [SlackChannel] the core reads.  [name], [is_im] and
    [is_group] may be missing on the objects the handlers receive. *)
Record SlackChannel : Type := {
  channel_id : string;
  channel_name : option string;
  is_im : option bool;
  is_group : option bool;
}.

(** [SlackEntityWithNameAndId], also standing for [LeagueMember]. *)
Record SlackEntity : Type := {
  id : string;
  name : option string;
  lichess_username : option string;
}.

Global Instance SlackEntity_eq_dec : EqDecision SlackEntity.
Proof. solve_decision. Defined.

(** ** Plain objects used as maps *)

(** What [obj[key]] gives on a plain object ([{}]) when it is not
    [undefined]: the object's own property, or, for a key the object has
    no property of its own for, the property it inherits from
    [Object.prototype]. *)
Inductive Property (A : Type) : Type :=
| Own (a : A)
| Inherited (key : string).
Arguments Own {A} a.
Arguments Inherited {A} key.

(** The property names of [Object.prototype]. *)
Definition Object_prototype_keys : list string :=
  ["constructor"; "__defineGetter__"; "__defineSetter__"; "hasOwnProperty";
   "__lookupGetter__"; "__lookupSetter__"; "isPrototypeOf";
   "propertyIsEnumerable"; "toString"; "valueOf"; "__proto__";
   "toLocaleString"].

(** [obj[key]], [None] being [undefined]. *)
Definition get_property {A} (obj : gmap string A) (key : string)
  : option (Property A) :=
  match obj !! key with
  | Some a => Some (Own a)
  | None =>
      if bool_decide (key ∈ Object_prototype_keys) then Some (Inherited key)
      else None
  end.

(** [x.name] for an inherited property [x]: the methods of
    [Object.prototype] are functions named after their key,
    [constructor] is the function [Object], and [__proto__] reads as
    [Object.prototype] itself, which has no [name]. *)
Definition inherited_name (key : string) : option string :=
  if String.eqb key "__proto__" then None
  else if String.eqb key "constructor" then Some "Object"
  else Some key.

(** [x.id], [x.name] and [x.lichess_username] for what a lookup in the
    index returned: an inherited property has no [id] and no
    [lichess_username]. *)
Definition entity_id (x : Property SlackEntity) : option string :=
  match x with Own e => Some (id e) | Inherited _ => None end.
Definition entity_name (x : Property SlackEntity) : option string :=
  match x with Own e => name e | Inherited key => inherited_name key end.
Definition entity_lichess_username (x : Property SlackEntity) : option string :=
  match x with Own e => lichess_username e | Inherited _ => None end.

(** The fields of [league.League] the core reads: its name, the
    [config.alsoKnownAs] aliases and the lichess names of its moderators
    (what [League.isModerator] consults). *)
Record League : Type := {
  league_name : string;
  alsoKnownAs : list string;
  moderators : list string;
}.

Global Instance League_eq_dec : EqDecision League.
Proof. solve_decision. Defined.

(** [ChessterMessage] / [CommandMessage] / [LeagueCommandMessage]: one
    record, the optional properties being [None] when absent.  [member]
    holds what the user index returned for the sender. *)
Record CommandMessage : Type := {
  user : string;
  channel : SlackChannel;
  text : string;
  member : option (Property SlackEntity);
  league : option League;
  isModerator : option bool;
  ts : string;
  isPingModerator : bool;
  matches : RegExpMatchArray;
}.

Definition set_matches (x : RegExpMatchArray) (m : CommandMessage) : CommandMessage :=
  {| user := user m; channel := channel m; text := text m; member := member m;
     league := league m; isModerator := isModerator m; ts := ts m;
     isPingModerator := isPingModerator m; matches := x |}.

Definition set_league (l : option League) (m : CommandMessage) : CommandMessage :=
  {| user := user m; channel := channel m; text := text m; member := member m;
     league := l; isModerator := isModerator m; ts := ts m;
     isPingModerator := isPingModerator m; matches := matches m |}.

Definition set_member (x : option (Property SlackEntity)) (m : CommandMessage)
  : CommandMessage :=
  {| user := user m; channel := channel m; text := text m; member := x;
     league := league m; isModerator := isModerator m; ts := ts m;
     isPingModerator := isPingModerator m; matches := matches m |}.

Definition set_isModerator (b : option bool) (m : CommandMessage) : CommandMessage :=
  {| user := user m; channel := channel m; text := text m; member := member m;
     league := league m; isModerator := b; ts := ts m;
     isPingModerator := isPingModerator m; matches := matches m |}.

Definition set_isPingModerator (b : bool) (m : CommandMessage) : CommandMessage :=
  {| user := user m; channel := channel m; text := text m; member := member m;
     league := league m; isModerator := isModerator m; ts := ts m;
     isPingModerator := b; matches := matches m |}.

(** ** Effects: exceptions and the observable trace *)

(** The two classes of exception the dispatcher distinguishes with
    [instanceof]: a plain [Error] and the middleware's [StopControllerError]. *)
Inductive JsError : Type :=
| Error (message : string)
| StopControllerError (message : string).

Definition error_message (e : JsError) : string :=
  match e with Error s => s | StopControllerError s => s end.

Definition instanceof_StopControllerError (e : JsError) : bool :=
  match e with StopControllerError _ => true | Error _ => false end.

Inductive LogLevel : Type := debug | info | warn | LogLevel_error.

(** Observable events, in program order.  [Logged] is a call of the
    logger, [Said] a call of [SlackBot.say] / the [say] function with the
    channel and text it was given, [Invoked] marks the point where a
    listener's callback is entered. *)
Inductive Event : Type :=
| Logged (level : LogLevel) (line : string)
| Said (channel : option string) (text : string)
| Invoked (message : CommandMessage).

Definition is_Said (e : Event) : bool :=
  match e with Said _ _ => true | _ => false end.
Definition is_Invoked (e : Event) : bool :=
  match e with Invoked _ => true | _ => false end.
Definition is_Logged_at (lvl : LogLevel) (e : Event) : bool :=
  match e, lvl with
  | Logged debug _, debug | Logged info _, info
  | Logged warn _, warn | Logged LogLevel_error _, LogLevel_error => true
  | _, _ => false
  end.

(** Outcome of a call: the value it returns or the exception it throws. *)
Inductive Outcome (A : Type) : Type :=
| Return (a : A)
| Throw (e : JsError).
Arguments Return {A} a.
Arguments Throw {A} e.

(** A computation: the trace it produced and how it ended. *)
Definition Eff (A : Type) : Type := list Event * Outcome A.

Definition ret {A} (a : A) : Eff A := ([], Return a).
Definition throw {A} (e : JsError) : Eff A := ([], Throw e).
Definition emit (ev : Event) : Eff unit := ([ev], Return tt).

Definition bind {A B} (c : Eff A) (k : A -> Eff B) : Eff B :=
  match c with
  | (tr, Return a) => let '(tr', o) := k a in (tr ++ tr', o)
  | (tr, Throw e) => (tr, Throw e)
  end.

(** [try { c } catch (e) { h e }]. *)
Definition try_catch {A} (c : Eff A) (h : JsError -> Eff A) : Eff A :=
  match c with
  | (tr, Return a) => (tr, Return a)
  | (tr, Throw e) => let '(tr', o) := h e in (tr ++ tr', o)
  end.

Notation "'do' x <- c ; k" := (bind c (fun x => k))
  (at level 10, x name, c at level 100, k at level 200).
Notation "'do' ' p <- c ; k" := (bind c (fun x => match x with p => k end))
  (at level 10, p pattern, c at level 100, k at level 200).
Notation "'run' c ; k" := (bind c (fun _ => k))
  (at level 10, c at level 100, k at level 200).

Definition trace {A} (c : Eff A) : list Event := fst c.
Definition outcome {A} (c : Eff A) : Outcome A := snd c.

(** [for (const x of xs) body(x)] / [xs.forEach(body)], return values dropped. *)
Fixpoint for_each {A B} (xs : list A) (body : A -> Eff B) : Eff unit :=
  match xs with
  | [] => ret tt
  | x :: xs' => run body x; for_each xs' body
  end.

(** [listener.type]. *)
Inductive ListenerType : Type := command | league_command.

Global Instance ListenerType_eq_dec : EqDecision ListenerType.
Proof. solve_decision. Defined.

(** The double-quote character, for log lines that quote the text. *)
Definition dquote : string := String (ascii_of_nat 34) EmptyString.

(** [`${error}`] for an [Error] object (the subclass does not rename it). *)
Definition error_toString (e : JsError) : string :=
  "Error: " +:+ error_message e.

(** ** chessterUtils.ts *)

Module Utils.

(** [SlackEventListenerOptions]: middleware maps a message to a message
    and, like the callback, may throw and may have effects. *)
Record SlackEventListenerOptions : Type := {
  type : ListenerType;
  patterns : list RegExp;
  messageTypes : list HearsEventType;
  middleware : option (list (CommandMessage -> Eff CommandMessage));
  callback : CommandMessage -> Eff unit;
}.

(** [normalizeMessageText]: two first-occurrence replacements, the
    mention followed by a space, then the bare mention. *)
Definition normalizeMessageText (text botUserId : string) : string :=
  JsString.replace_first
    (JsString.replace_first text ("<@" +:+ botUserId +:+ "> "))
    ("<@" +:+ botUserId +:+ ">").

(** The [type] label of a context. *)
Inductive ContextType : Type := mention | DM | ambient_label.

Definition ContextType_toString (t : ContextType) : string :=
  match t with mention => "mention" | DM => "DM" | ambient_label => "ambient" end.

(** The four flags [findMatchingListener] and
    [doesListenerWantMessageType] read. *)
Record ContextFlags : Type := {
  isDirectMessage : bool;
  isDirectMention : bool;
  isAmbient : bool;
  isBotMessage : bool;
}.

(** The object [determineMessageContext] returns. *)
Record MessageContext : Type := {
  context_type : ContextType;
  flags :> ContextFlags;
}.

(** [channel?.field ?? false]. *)
Definition flag_or_false (channel : option SlackChannel)
    (field : SlackChannel -> option bool) : bool :=
  match channel with
  | Some c => match field c with Some b => b | None => false end
  | None => false
  end.

Definition determineMessageContext (channel : option SlackChannel)
    (isDirectMention : bool) : MessageContext :=
  let isDirectMessage :=
    flag_or_false channel is_im && negb (flag_or_false channel is_group) in
  let isAmbient := negb (isDirectMention || isDirectMessage) in
  {| context_type :=
       if isDirectMention then mention
       else if isDirectMessage then DM else ambient_label;
     flags := {| isDirectMessage := isDirectMessage;
                 isDirectMention := isDirectMention;
                 isAmbient := isAmbient;
                 isBotMessage := false |} |}.

(** [listener.messageTypes.includes(t)]. *)
Definition includes (ts : list HearsEventType) (t : HearsEventType) : bool :=
  bool_decide (t ∈ ts).

Definition doesListenerWantMessageType (listener : SlackEventListenerOptions)
    (context : ContextFlags) : bool :=
  if isDirectMessage context && includes (messageTypes listener) direct_message
  then true
  else if isDirectMention context && includes (messageTypes listener) direct_mention
  then true
  else if isAmbient context && includes (messageTypes listener) ambient
  then true
  else if isBotMessage context && includes (messageTypes listener) bot_message
  then true
  else false.

(** The inner loop of [findMatchingListener]: the first pattern, in
    declaration order, that matches. *)
Fixpoint first_matching_pattern (text : string) (ps : list RegExp)
  : option RegExpMatchArray :=
  match ps with
  | [] => None
  | pattern :: ps' =>
      match String_match text pattern with
      | Some matches => Some matches
      | None => first_matching_pattern text ps'
      end
  end.

Fixpoint findMatchingListener (listeners : list SlackEventListenerOptions)
    (text : string) (context : ContextFlags)
  : option (SlackEventListenerOptions * RegExpMatchArray) :=
  match listeners with
  | [] => None
  | listener :: rest =>
      if negb (doesListenerWantMessageType listener context)
      then findMatchingListener rest text context
      else match first_matching_pattern text (patterns listener) with
           | Some matches => Some (listener, matches)
           | None => findMatchingListener rest text context
           end
  end.

(** The loop of [applyMiddleware], threading [processedMessage]. *)
Fixpoint middleware_loop (fns : list (CommandMessage -> Eff CommandMessage))
    (processedMessage : CommandMessage) : Eff CommandMessage :=
  match fns with
  | [] => ret processedMessage
  | middlewareFn :: fns' =>
      do m <- middlewareFn processedMessage; middleware_loop fns' m
  end.

Definition applyMiddleware (message : CommandMessage)
    (middleware : option (list (CommandMessage -> Eff CommandMessage)))
  : Eff CommandMessage :=
  match middleware with
  | None => ret message
  | Some fns =>
      if (length fns =? 0)%nat then ret message
      else middleware_loop fns message
  end.

(** ASCII white space, the part of [trim] exercised by chat text. *)
Definition is_space (c : ascii) : bool :=
  let n := nat_of_ascii c in
  (n =? 32)%nat || ((9 <=? n)%nat && (n <=? 13)%nat).

Fixpoint trimStart (s : string) : string :=
  match s with
  | EmptyString => EmptyString
  | String c s' => if is_space c then trimStart s' else s
  end.

Fixpoint trimEnd (s : string) : string :=
  match s with
  | EmptyString => EmptyString
  | String c s' =>
      match trimEnd s' with
      | EmptyString => if is_space c then EmptyString else String c EmptyString
      | r => String c r
      end
  end.

Definition trim (s : string) : string := trimEnd (trimStart s).

(** [app.logger.info] / [app.logger.error] and the [say] function. *)
Definition logger (lvl : LogLevel) (line : string) : Eff unit :=
  emit (Logged lvl line).
Definition say (text : string) : Eff unit := emit (Said None text).

(** [processChessterMessage]. *)
Definition processChessterMessage (text user : string) (channel : SlackChannel)
    (ts : string) (botUserId : option string) (isDirectMention : bool)
    (listeners : list SlackEventListenerOptions) : Eff unit :=
  try_catch
    (let normalizedText :=
       match botUserId with
       | Some b =>
           if isDirectMention && JsString.truthy b
           then normalizeMessageText text b else text
       | None => text
       end in
     let chessterMessage :=
       {| user := user; channel := channel; text := trim normalizedText;
          member := None; league := None; isModerator := None; ts := ts;
          isPingModerator := false; matches := [] |} in
     let messageContext := determineMessageContext (Some channel) isDirectMention in
     run logger info
           ("Processing " +:+ ContextType_toString (context_type messageContext)
            +:+ " message: " +:+ dquote +:+ normalizedText +:+ dquote);
     match findMatchingListener listeners normalizedText messageContext with
     | Some (listener, matches) =>
         let commandMessage := set_matches matches chessterMessage in
         do processedMessage <- applyMiddleware commandMessage (middleware listener);
         run emit (Invoked processedMessage);
         callback listener processedMessage
     | None => ret tt
     end)
    (fun error =>
       run logger LogLevel_error
             ("Error processing message: " +:+ error_toString error);
       say "Error processing message. Its probably MrScribbles' fault. :sexy-glbert:").

End Utils.

(** ** The entity index: [SlackEntityLookup] *)

Module Lookup.

Record SlackEntityLookup : Type := {
  byName : gmap string SlackEntity;
  byId : gmap string SlackEntity;
  nameDuplicates : gmap string (list SlackEntity);
  idDuplicates : gmap string (list SlackEntity);
}.

(** A freshly constructed lookup. *)
Definition empty : SlackEntityLookup :=
  {| byName := ∅; byId := ∅; nameDuplicates := ∅; idDuplicates := ∅ |}.

(** [clear()] resets the two primary maps only. *)
Definition clear (s : SlackEntityLookup) : SlackEntityLookup :=
  {| byName := ∅; byId := ∅;
     nameDuplicates := nameDuplicates s; idDuplicates := idDuplicates s |}.

(** A call of a method that writes to the index: its trace and outcome,
    and the index as the call leaves it, also when it throws. *)
Definition Call : Type := Eff unit * SlackEntityLookup.

Definition returns (s : SlackEntityLookup) : Call := (ret tt, s).
Definition throws (e : JsError) (s : SlackEntityLookup) : Call := (throw e, s).

(** [c; k]: the statements after a call run on the index it left, when
    it returned. *)
Definition and_then (c : Call) (k : SlackEntityLookup -> Call) : Call :=
  match c with
  | ((tr, Return _), s) => let '((tr', o), s') := k s in ((tr ++ tr', o), s')
  | ((tr, Throw e), s) => ((tr, Throw e), s)
  end.

(** Calling [push] on a missing duplicates entry. *)
Definition push_on_undefined : JsError :=
  Error "TypeError: Cannot read properties of undefined (reading 'push')".

(** Calling [push] on an inherited property, which is no array. *)
Definition idDuplicates_push_not_a_function : JsError :=
  Error "TypeError: this.idDuplicates[id].push is not a function".
Definition nameDuplicates_push_not_a_function : JsError :=
  Error "TypeError: this.nameDuplicates[key].push is not a function".

(** [_addByIdWithDuplicate].  A key that reads as defined without being
    the object's own, [constructor] say, takes the [push] branch and
    throws before anything is written; so no inherited key is written,
    and the writes are plain property writes. *)
Definition _addByIdWithDuplicate (id : string) (entity : SlackEntity)
    (s : SlackEntityLookup) : Call :=
  match get_property (byId s) id with
  | Some _ =>
      match get_property (idDuplicates s) id with
      | Some (Own l) =>
          returns {| byName := byName s; byId := <[id := entity]> (byId s);
                     nameDuplicates := nameDuplicates s;
                     idDuplicates := <[id := l ++ [entity]]> (idDuplicates s) |}
      | Some (Inherited _) => throws idDuplicates_push_not_a_function s
      | None => throws push_on_undefined s
      end
  | None =>
      returns {| byName := byName s; byId := <[id := entity]> (byId s);
                 nameDuplicates := nameDuplicates s;
                 idDuplicates := <[id := [entity]]> (idDuplicates s) |}
  end.

Definition _addByNameWithDuplicate (key : string) (entity : SlackEntity)
    (s : SlackEntityLookup) : Call :=
  match get_property (byName s) key with
  | Some _ =>
      match get_property (nameDuplicates s) key with
      | Some (Own l) =>
          returns {| byName := <[key := entity]> (byName s); byId := byId s;
                     nameDuplicates := <[key := l ++ [entity]]> (nameDuplicates s);
                     idDuplicates := idDuplicates s |}
      | Some (Inherited _) => throws nameDuplicates_push_not_a_function s
      | None => throws push_on_undefined s
      end
  | None =>
      returns {| byName := <[key := entity]> (byName s); byId := byId s;
                 nameDuplicates := <[key := [entity]]> (nameDuplicates s);
                 idDuplicates := idDuplicates s |}
  end.

(** [idDuplicateCount] and [getIdDuplicates] read [idDuplicates] under
    an upper-cased key, which is no property name of [Object.prototype]:
    what they read is the object's own property or [undefined]. *)
Definition idDuplicateCount (id : string) (s : SlackEntityLookup) : nat :=
  match idDuplicates s !! JsString.toUpperCase id with
  | Some l => length l
  | None => 0
  end.

Definition getIdDuplicates (id : string) (s : SlackEntityLookup)
  : list SlackEntity :=
  match idDuplicates s !! JsString.toUpperCase id with
  | Some l => l
  | None => []
  end.

(** [if (x)] on an optional string property. *)
Definition truthy_opt (o : option string) : bool :=
  match o with Some x => JsString.truthy x | None => false end.

Definition add (entity : SlackEntity) (s : SlackEntityLookup) : Call :=
  and_then (_addByIdWithDuplicate (JsString.toUpperCase (id entity)) entity s)
    (fun s1 =>
       if JsString.startsWith (id entity) "D" then returns s1
       else
         match name entity with
         | None =>
             (emit (Logged warn (id entity +:+ " does not have a name")), s1)
         | Some n =>
             and_then
               (if JsString.truthy n
                then _addByNameWithDuplicate (JsString.toLowerCase n) entity s1
                else returns s1)
               (fun s2 =>
                  match lichess_username entity with
                  | Some u =>
                      if JsString.truthy u
                      then _addByNameWithDuplicate (JsString.toLowerCase u) entity s2
                      else returns s2
                  | None => returns s2
                  end)
         end).

(** A sequence of [add] calls on one index, oldest first: the trace of
    the calls and the index they leave.  Each call is made on the index
    the call before left, whether that call returned or threw. *)
Fixpoint add_all (entities : list SlackEntity) (s : SlackEntityLookup)
  : list Event * SlackEntityLookup :=
  match entities with
  | [] => ([], s)
  | e :: rest =>
      let '(tr', s') := add_all rest (snd (add e s)) in
      (trace (fst (add e s)) ++ tr', s')
  end.

(** [byId[k] || byName[k']]: what [byId] gives is an object or a
    function, which is truthy, or [undefined]. *)
Definition getByNameOrID (nameOrId : string) (s : SlackEntityLookup)
  : option (Property SlackEntity) :=
  match get_property (byId s) (JsString.toUpperCase nameOrId) with
  | Some x => Some x
  | None => get_property (byName s) (JsString.toLowerCase nameOrId)
  end.

(** [getId]: the id of what is found under a name. *)
Definition getId (name : string) (s : SlackEntityLookup) : Eff (option string) :=
  match get_property (byName s) (JsString.toLowerCase name) with
  | Some entity => ret (entity_id entity)
  | None =>
      run emit (Logged LogLevel_error ("Couldn't find entity by name: " +:+ name));
      ret None
  end.

(** [getName]: the key is the id as given, not upper-cased. *)
Definition getName (id : string) (s : SlackEntityLookup) : Eff (option string) :=
  match get_property (byId s) id with
  | Some entity => ret (entity_name entity)
  | None =>
      run emit (Logged LogLevel_error ("Couldn't find entity by id: " +:+ id));
      ret None
  end.

(** [`${x}`] for an optional string. *)
Definition template_opt (o : option string) : string :=
  match o with Some x => x | None => "undefined" end.

(** [getIdString], with the [idStringPrefix] of the lookup. *)
Definition getIdString (idStringPrefix name : string) (s : SlackEntityLookup)
  : Eff string :=
  do id <- getId name s;
  ret ("<" +:+ idStringPrefix +:+ template_opt id +:+ ">").

End Lookup.

(** ** The Slack bot: middleware, league resolution, dispatch *)

Module Slack.

(** The parts of [SlackBot] the dispatcher reads: [config.channelMap],
    [config.pingMods] and the user index.  The two configuration objects
    are read with the names and ids of channels; they are modelled by
    their own properties, as finite maps. *)
Record SlackBot : Type := {
  channelMap : gmap string string;
  pingMods : gmap string (list string);
  users : Lookup.SlackEntityLookup;
}.

(** What the dispatcher imports from the [league] module, whose source
    is not part of this development: the league registry
    ([league.getLeague], called with a possibly undefined name, and
    [league.getAllLeagues]) and the [League.isModerator] method. *)
Class LeagueModule : Type := {
  league_getLeague : SlackBot -> option string -> option League;
  league_getAllLeagues : SlackBot -> list League;
  League_isModerator : League -> option string -> bool;
}.

(** [fuzzy.Result]. *)
Record FuzzyResult : Type := { value : string; score : Z }.

(** What the resolver imports from the [fuzzy_match] module, whose
    source is not part of this development. *)
Class FuzzyModule : Type := {
  fuzzy_rankChoices : string -> list string -> list FuzzyResult;
  fuzzy_findBestMatches : list FuzzyResult -> list FuzzyResult;
}.

Definition MiddlewareFn : Type := SlackBot -> CommandMessage -> Eff CommandMessage.

(** [SlackRTMEventListenerOptions]. *)
Record SlackRTMEventListenerOptions : Type := {
  type : ListenerType;
  patterns : list RegExp;
  messageTypes : list HearsEventType;
  middleware : option (list MiddlewareFn);
  callback : SlackBot -> CommandMessage -> Eff unit;
}.

(** [SlackBot.say], recorded with the channel and text it is given. *)
Definition say (channel text : string) : Eff unit :=
  emit (Said (Some channel) text).

(** [SlackBot.reply]: a message always carries its channel object. *)
Definition reply (message : CommandMessage) (response : string) : Eff unit :=
  say (channel_id (channel message)) response.

(** [this.log.info] and friends. *)
Definition log (lvl : LogLevel) (line : string) : Eff unit :=
  emit (Logged lvl line).

(** [!message.isModerator]. *)
Definition not_isModerator (message : CommandMessage) : bool :=
  match isModerator message with Some true => false | _ => true end.

(** [requiresModerator].  A league, being an object, passes the second
    guard of the source whenever it passes the first. *)
Definition requiresModerator (bot : SlackBot) (message : CommandMessage)
  : Eff CommandMessage :=
  match league message with
  | None => throw (Error "requiresModerator MUST be called after withLeague.")
  | Some l =>
      if not_isModerator message then
        run reply message
              ("You are not a moderator of the " +:+ league_name l
               +:+ " league. Your temerity has been logged.");
        throw (StopControllerError "Not a moderator.")
      else ret message
  end.

(** [requiresLeague]. *)
Definition requiresLeague (bot : SlackBot) (message : CommandMessage)
  : Eff CommandMessage :=
  match league message with
  | None =>
      run reply message
            "This command requires you to specify the league you are interested in. Please include that next time";
      throw (StopControllerError "No league specified")
  | Some _ => ret message
  end.

Section Resolver.
Context `{LM : LeagueModule} `{FM : FuzzyModule}.

(** The labels of a league, in the order [add_target] receives them. *)
Definition league_targets (l : League) : list (string * League) :=
  (league_name l, l) :: map (fun aka => (aka, l)) (alsoKnownAs l).

(** All [add_target] calls, in order. *)
Definition all_targets (allLeagues : list League) : list (string * League) :=
  concat (map league_targets allLeagues).

(** [leagueTargets]: every label pushed, duplicates included. *)
Definition leagueTargets (allLeagues : list League) : list string :=
  map fst (all_targets allLeagues).

(** [targetToLeague]: a later [add_target] overwrites an earlier one. *)
Definition targetToLeague (allLeagues : list League) : gmap string League :=
  fold_left (fun m tl => <[fst tl := snd tl]> m) (all_targets allLeagues) ∅.

(** Reading [l.name] of a missing [targetToLeague] entry. *)
Definition name_of_undefined : JsError :=
  Error "TypeError: Cannot read properties of undefined (reading 'name')".

(** The loop filling [possibleLeagues], keyed by league name. *)
Fixpoint possibleLeagues_loop (t2l : gmap string League)
    (bestMatches : list FuzzyResult) (acc : gmap string League)
  : Eff (gmap string League) :=
  match bestMatches with
  | [] => ret acc
  | m :: rest =>
      match t2l !! value m with
      | Some l => possibleLeagues_loop t2l rest (<[league_name l := l]> acc)
      | None => throw name_of_undefined
      end
  end.

(** The best matches over all the words of the text. *)
Definition text_bestMatches (allLeagues : list League) (text : string)
  : list FuzzyResult :=
  fuzzy_findBestMatches
    (concat (map (fun arg =>
                    fuzzy_rankChoices (JsString.toLowerCase arg)
                                      (leagueTargets allLeagues))
                 (JsString.split_space text))).

(** [findLeagueByMessageText]: [null] is [None]. *)
Definition findLeagueByMessageText (bot : SlackBot) (message : CommandMessage)
  : Eff (option League) :=
  let allLeagues := league_getAllLeagues bot in
  do possibleLeagues <-
    possibleLeagues_loop (targetToLeague allLeagues)
      (text_bestMatches allLeagues (text message)) ∅;
  match map_to_list possibleLeagues with
  | [] => ret None
  | [(_, l)] => ret (Some l)
  | _ :: _ :: _ => throw (StopControllerError "Ambiguous leagues.")
  end.

(** [getLeague]: returns the resolved league together with the
    message as the assignments to [message.league] leave it. *)
Definition getLeague (bot : SlackBot) (message : CommandMessage)
    (channelOnly : bool) : Eff (CommandMessage * option League) :=
  let message := set_league None message in
  let channel := channel message in
  let tier1 :=
    if Lookup.truthy_opt (channel_name channel) then
      match channel_name channel with
      | Some n => league_getLeague bot (channelMap bot !! n)
      | None => None
      end
    else None in
  match tier1 with
  | Some l => ret (set_league (Some l) message, Some l)
  | None =>
      let tier2 :=
        if JsString.truthy (channel_id channel) then
          let targetLeague := channelMap bot !! channel_id channel in
          if Lookup.truthy_opt targetLeague
          then league_getLeague bot targetLeague
          else None
        else None in
      match tier2 with
      | Some l => ret (set_league (Some l) message, Some l)
      | None =>
          if negb channelOnly then
            do l <- findLeagueByMessageText bot message;
            match l with
            | Some l => ret (set_league (Some l) message, Some l)
            | None => ret (message, None)
            end
          else ret (message, None)
      end
  end.

End Resolver.

Section Dispatch.
Context `{LM : LeagueModule} `{FM : FuzzyModule}.

(** [listener.patterns.map((p) => p.source).join(', ')]. *)
Definition pattern_sources (listener : SlackRTMEventListenerOptions) : string :=
  String.concat ", " (map source (patterns listener)).

(** [member?.name || 'UNDEFINED']. *)
Definition name_or_UNDEFINED (member : option (Property SlackEntity)) : string :=
  match member with
  | Some m =>
      match entity_name m with
      | Some n => if JsString.truthy n then n else "UNDEFINED"
      | None => "UNDEFINED"
      end
  | None => "UNDEFINED"
  end.

(** [{ member, ...message }]: a [member] property of the message, when
    it has one, overrides the local [member]. *)
Definition spread_member (local : option (Property SlackEntity))
    (message : CommandMessage) : CommandMessage :=
  match member message with
  | Some _ => message
  | None => set_member local message
  end.

(** The value assigned to [message.isPingModerator]: the list holds
    strings, so a member without [id] is not in it. *)
Definition pingModerator (bot : SlackBot) (message : CommandMessage)
    (member : option (Property SlackEntity)) : bool :=
  match pingMods bot !! channel_id (channel message), member with
  | Some mods, Some m =>
      match entity_id m with
      | Some i => bool_decide (i ∈ mods)
      | None => false
      end
  | _, _ => false
  end.

(** [allowedTypes]. *)
Definition allowedTypes (_league : option League)
    (member : option (Property SlackEntity)) : list ListenerType :=
  match _league, member with
  | Some _, Some _ => [command; league_command]
  | _, _ => [command]
  end.

(** [allowedTypes.indexOf(t) !== -1]. *)
Definition allows (allowed : list ListenerType) (t : ListenerType) : bool :=
  bool_decide (t ∈ allowed).

(** [if (listener.middleware) listener.middleware.forEach(...)]. *)
Definition run_middleware (bot : SlackBot)
    (listener : SlackRTMEventListenerOptions) (message : CommandMessage)
  : Eff unit :=
  match middleware listener with
  | Some ms => for_each ms (fun m => m bot message)
  | None => ret tt
  end.

(** The body of the inner [try] of [handleMatch]. *)
Definition dispatch (bot : SlackBot) (listener : SlackRTMEventListenerOptions)
    (message : CommandMessage) (_league : option League)
    (member : option (Property SlackEntity)) (allowed : list ListenerType)
  : Eff unit :=
  if bool_decide (type listener = command) && allows allowed command then
    run log info ("Executing command callback for pattern: "
                  +:+ pattern_sources listener);
    run run_middleware bot listener (spread_member member message);
    run emit (Invoked (spread_member member message));
    run callback listener bot (spread_member member message);
    log info "Command executed successfully"
  else if bool_decide (type listener = league_command)
          && allows allowed league_command then
    match _league, member with
    | Some l, Some mem =>
        run log info ("Executing league_command callback for pattern: "
                      +:+ pattern_sources listener);
        run run_middleware bot listener message;
        let leagueCommandMessage :=
          set_isModerator
            (Some (League_isModerator l (entity_lichess_username mem)))
            (set_member (Some mem) (set_league (Some l) message)) in
        run emit (Invoked leagueCommandMessage);
        run callback listener bot leagueCommandMessage;
        log info "League command executed successfully"
    | _, _ =>
        log warn "Cannot execute league command - missing league or member"
    end
  else ret tt.

(** [SlackBot.handleMatch]. *)
Definition handleMatch (bot : SlackBot) (listener : SlackRTMEventListenerOptions)
    (message : CommandMessage) : Eff unit :=
  run log info ("handleMatch called with pattern: " +:+ pattern_sources listener
                +:+ " and message: " +:+ text message);
  do member <-
    (if JsString.truthy (user message) then
       let member := Lookup.getByNameOrID (user message) (users bot) in
       run log info ("Handle match found user: " +:+ name_or_UNDEFINED member
                     +:+ " for ID: " +:+ user message);
       ret member
     else ret None);
  do ' (message, _league) <- getLeague bot message false;
  let allowed := allowedTypes _league member in
  let message := set_isPingModerator (pingModerator bot message member) message in
  try_catch
    (try_catch
       (dispatch bot listener message _league member allowed)
       (fun error =>
          run log LogLevel_error
                ("Error in command execution: " +:+ error_message error);
          if instanceof_StopControllerError error then
            log LogLevel_error
              "Middleware asked to not process controller callback: {}"
          else ret tt))
    (fun e =>
       run log LogLevel_error
             ("Critical error handling event: " +:+ error_message e);
       say (channel_id (channel message))
           "Something has gone terribly terribly wrong. Please forgive me.").

End Dispatch.

(** [wantsBotMessage] and its three siblings. *)
Definition wantsBotMessage (options : SlackRTMEventListenerOptions) : bool :=
  bool_decide (bot_message ∈ messageTypes options).
Definition wantsDirectMessage (options : SlackRTMEventListenerOptions) : bool :=
  bool_decide (direct_message ∈ messageTypes options).
Definition wantsDirectMention (options : SlackRTMEventListenerOptions) : bool :=
  bool_decide (direct_mention ∈ messageTypes options).
Definition wantsAmbient (options : SlackRTMEventListenerOptions) : bool :=
  bool_decide (ambient ∈ messageTypes options).

(** [slackIDRegex], [/<@([^\s]+)>/], on ASCII text.  After [<@] the
    group takes a run of characters that are not white space, as long as
    possible while a [>] still follows it: the run up to its last [>].
    The leftmost position where this succeeds is the match. *)
Fixpoint non_space_run (s : string) : string :=
  match s with
  | EmptyString => EmptyString
  | String c s' =>
      if Utils.is_space c then EmptyString else String c (non_space_run s')
  end.

(** The longest prefix of [r] that is followed, inside [r], by [>]. *)
Fixpoint before_last_gt (r : string) : option string :=
  match r with
  | EmptyString => None
  | String c r' =>
      match before_last_gt r' with
      | Some x => Some (String c x)
      | None => if Ascii.eqb c ">"%char then Some EmptyString else None
      end
  end.

(** The group of a match starting at the [<@] in front of [rest]. *)
Definition slackID_group (rest : string) : option string :=
  match before_last_gt (non_space_run rest) with
  | Some EmptyString => None
  | Some x => Some x
  | None => None
  end.

Fixpoint slackIDRegex_exec (s : string) : option RegExpMatchArray :=
  match s with
  | EmptyString => None
  | String c s' =>
      if JsString.startsWith s "<@" then
        match slackID_group (JsString.slice 2 s) with
        | Some x => Some [Some ("<@" +:+ x +:+ ">"); Some x]
        | None => slackIDRegex_exec s'
        end
      else slackIDRegex_exec s'
  end.

Definition slackIDRegex : RegExp :=
  {| source := "<@([^\s]+)>"; exec := slackIDRegex_exec |}.

(** Reading [getByNameOrID] with an undefined argument. *)
Definition toUpperCase_of_undefined : JsError :=
  Error "TypeError: Cannot read properties of undefined (reading 'toUpperCase')".

(** [SlackBot.getSlackUserFromNameOrID]. *)
Definition getSlackUserFromNameOrID (bot : SlackBot) (nameOrId : string)
  : Eff (option (Property SlackEntity)) :=
  match Lookup.getByNameOrID nameOrId (users bot) with
  | Some player => ret (Some player)
  | None =>
      match String_match nameOrId slackIDRegex with
      | Some userIdExtraction =>
          match userIdExtraction !! 1 with
          | Some (Some captured) => ret (Lookup.getByNameOrID captured (users bot))
          | _ => throw toUpperCase_of_undefined
          end
      | None =>
          ret (Lookup.getByNameOrID (JsString.toLowerCase nameOrId) (users bot))
      end
  end.

(** [message.matches[1]] when it is truthy. *)
Definition captured_name (message : CommandMessage) : option string :=
  match matches message !! 1 with
  | Some (Some x) => if JsString.truthy x then Some x else None
  | _ => None
  end.

(** [SlackBot.getLeagueMemberTarget].  A member without [id] and no
    captured name make [nameOrId] undefined, on which [getByNameOrID]
    fails. *)
Definition getLeagueMemberTarget (bot : SlackBot) (message : CommandMessage)
  : Eff (option (Property SlackEntity)) :=
  match member message with
  | None => ret None
  | Some m =>
      let nameOrId :=
        match captured_name message with
        | Some x => Some x
        | None => entity_id m
        end in
      match nameOrId with
      | Some x => getSlackUserFromNameOrID bot x
      | None => throw toUpperCase_of_undefined
      end
  end.

(** [new Set(xs)] turned back into an array: first occurrences, in order. *)
Fixpoint set_elements {A} `{EqDecision A} (seen xs : list A) : list A :=
  match xs with
  | [] => []
  | x :: xs' =>
      if decide (x ∈ seen) then set_elements seen xs'
      else x :: set_elements (x :: seen) xs'
  end.

(** [xs.join(', ')]: an undefined element prints as the empty string. *)
Definition join_usernames (xs : list (option string)) : string :=
  String.concat ", " (map (fun o => match o with Some x => x | None => EmptyString end) xs).

(** The line feed of the template of [hasSingleUser]. *)
Definition newline : string := String (ascii_of_nat 10) EmptyString.

(** [SlackBot.hasSingleUser]. *)
Definition hasSingleUser (bot : SlackBot) (message : CommandMessage) : Eff bool :=
  let usernames :=
    set_elements []
      (map lichess_username (Lookup.getIdDuplicates (user message) (users bot))) in
  let c := length usernames in
  if (c =? 1)%nat then ret true
  else
    run reply message
          ("This command requires you to have a single lichess account associated with your slack account. you have "
           +:+ pretty c +:+ ":" +:+ newline +:+ join_usernames usernames);
    ret false.

(** The character class [[\w-\.]] of the link pattern of [say]. *)
Definition is_link_char (c : ascii) : bool :=
  let n := nat_of_ascii c in
  ((48 <=? n)%nat && (n <=? 57)%nat) || ((65 <=? n)%nat && (n <=? 90)%nat)
  || ((97 <=? n)%nat && (n <=? 122)%nat) || (n =? 95)%nat
  || (n =? 45)%nat || (n =? 46)%nat.

Fixpoint link_run (s : string) : string :=
  match s with
  | EmptyString => EmptyString
  | String c s' => if is_link_char c then String c (link_run s') else EmptyString
  end.

(** A match of [/<\@([\w-\.]+)>/] at the front of [s]: its group. *)
Definition link_at (s : string) : option string :=
  if JsString.startsWith s "<@" then
    let username := link_run (JsString.slice 2 s) in
    if JsString.truthy username
       && JsString.startsWith (JsString.slice (2 + String.length username) s) ">"
    then Some username else None
  else None.

(** The replacement callback of [say]. *)
Definition link_replacement (bot : SlackBot) (username : string) : string :=
  match Lookup.getByNameOrID username (users bot) with
  | Some u =>
      "<@" +:+ Lookup.template_opt (entity_id u) +:+ "|"
      +:+ Lookup.template_opt (entity_name u) +:+ ">"
  | None => "<@" +:+ username +:+ ">"
  end.

(** [text.replace(/<\@([\w-\.]+)>/g, callback)]: [skip] counts the
    characters of the current match still to pass over. *)
Fixpoint replace_links (bot : SlackBot) (skip : nat) (s : string) : string :=
  match s with
  | EmptyString => EmptyString
  | String c s' =>
      match skip with
      | S k => replace_links bot k s'
      | O =>
          match link_at s with
          | Some username =>
              link_replacement bot username
              +:+ replace_links bot (String.length username + 2) s'
          | None => String c (replace_links bot O s')
          end
      end
  end.

(** The text [SlackBot.say] posts for the text it is given ([''] is
    falsy and posted as it is). *)
Definition posted_text (bot : SlackBot) (text : string) : string :=
  if JsString.truthy text then replace_links bot O text else text.

(** The listener loop of the [app.message] handler: the [handleMatch]
    calls it makes, in order.  Every wanted listener is tried, and gets
    one call with its first matching pattern. *)
Definition message_isWanted (listener : SlackRTMEventListenerOptions)
    (isDirectMessage isBotMessage : bool) : bool :=
  let isAmbient := negb isDirectMessage in
  if isDirectMessage && wantsDirectMessage listener then true
  else if isAmbient && wantsAmbient listener then true
  else if isBotMessage && wantsBotMessage listener then true
  else false.

Fixpoint message_listener_loop (listeners : list SlackRTMEventListenerOptions)
    (chessterMessage : CommandMessage) (text : string)
    (isDirectMessage isBotMessage : bool)
  : list (SlackRTMEventListenerOptions * CommandMessage) :=
  match listeners with
  | [] => []
  | listener :: rest =>
      let calls :=
        message_listener_loop rest chessterMessage text isDirectMessage isBotMessage in
      if negb (message_isWanted listener isDirectMessage isBotMessage) then calls
      else match Utils.first_matching_pattern text (patterns listener) with
           | Some matches => (listener, set_matches matches chessterMessage) :: calls
           | None => calls
           end
  end.

(** One pass of the [app_mention] handler over the listeners of a kind:
    the first listener of that kind wanting direct mentions with a
    matching pattern. *)
Fixpoint mention_pass (kind : ListenerType)
    (listeners : list SlackRTMEventListenerOptions)
    (chessterMessage : CommandMessage) (text : string)
  : option (SlackRTMEventListenerOptions * CommandMessage) :=
  match listeners with
  | [] => None
  | listener :: rest =>
      if bool_decide (type listener = kind) && wantsDirectMention listener then
        match Utils.first_matching_pattern text (patterns listener) with
        | Some matches => Some (listener, set_matches matches chessterMessage)
        | None => mention_pass kind rest chessterMessage text
        end
      else mention_pass kind rest chessterMessage text
  end.

(** The two passes of the [app_mention] handler: the one [handleMatch]
    call it makes, if any. *)
Definition mention_listener_loop (listeners : list SlackRTMEventListenerOptions)
    (chessterMessage : CommandMessage) (text : string)
  : option (SlackRTMEventListenerOptions * CommandMessage) :=
  match mention_pass command listeners chessterMessage text with
  | Some call => Some call
  | None => mention_pass league_command listeners chessterMessage text
  end.

End Slack.

(** * Reference instances and fixtures *)

Module Reference.
Import Slack.

(** Modelled from the spec: the [league] module is not among the sources.
    Leagues are loaded once from configuration and have unique names:
    the registry is a list of leagues looked up by name, an undefined
    name finds nothing, and a member is a moderator of a league when its
    lichess name is in the league's moderator set. *)
Definition registry (leagues : list League) : LeagueModule :=
  {| league_getLeague := fun _ target =>
       match target with
       | Some n => find (fun l => String.eqb (league_name l) n) leagues
       | None => None
       end;
     league_getAllLeagues := fun _ => leagues;
     League_isModerator := fun l who =>
       match who with
       | Some u => bool_decide (u ∈ moderators l)
       | None => false
       end |}.

(** Modelled from the spec: the [fuzzy_match] module is not among the
    sources.  [rank] scores every candidate against the query, exact
    equality strictly above a partial (substring) match, and
    [bestMatches] keeps all the results whose score equals the maximum
    observed, ties included. *)
Definition rank_score (query candidate : string) : Z :=
  if String.eqb query (JsString.toLowerCase candidate) then 2%Z
  else if JsString.includes (JsString.toLowerCase candidate) query then 1%Z
  else 0%Z.

Definition max_score (results : list FuzzyResult) : Z :=
  fold_left Z.max (map score results) 0%Z.

Definition spec_fuzzy : FuzzyModule :=
  {| fuzzy_rankChoices := fun query candidates =>
       map (fun c => {| value := c; score := rank_score query c |}) candidates;
     fuzzy_findBestMatches := fun results =>
       filter (fun r => score r = max_score results) results |}.

(** The leagues and channel bindings of [config/testconfig.js]. *)
Definition league_4545 : League :=
  {| league_name := "45+45"; alsoKnownAs := ["4545"; "team"];
     moderators := ["lakinwecker"] |}.
Definition league_lonewolf : League :=
  {| league_name := "lonewolf"; alsoKnownAs := ["lw"; "wolf"];
     moderators := ["lakinwecker"] |}.
Definition league_blitzbattle : League :=
  {| league_name := "blitzbattle"; alsoKnownAs := ["blitz"]; moderators := [] |}.
Definition league_chess960 : League :=
  {| league_name := "chess960"; alsoKnownAs := ["960"]; moderators := [] |}.

Definition test_leagues : list League :=
  [league_4545; league_lonewolf; league_blitzbattle; league_chess960].

Definition lakin : SlackEntity :=
  {| id := "U0164C6FXLK"; name := Some "lakinwecker";
     lichess_username := Some "lakinwecker" |}.
Definition glbert : SlackEntity :=
  {| id := "U0200GLBERT"; name := Some "glbert";
     lichess_username := Some "glbert" |}.

Definition test_users : Lookup.SlackEntityLookup :=
  snd (Lookup.add_all [lakin; glbert] Lookup.empty).

Definition test_bot : SlackBot :=
  {| channelMap :=
       <["C016G6T5QTW" := "45+45"]>
       (<["dev-testing" := "45+45"]>
       (<["lonewolf-games" := "lonewolf"]>
       (<["dev-testing-blitz" := "blitz"]>
       (<["C08JZJNU8UC" := "lonewolf"]> ∅))));
     pingMods := <["C016G6T5QTW" := ["U0164C6FXLK"]]> ∅;
     users := test_users |}.

Definition lonewolf_games_private : SlackChannel :=
  {| channel_id := "C08JZJNU8UC"; channel_name := None;
     is_im := Some false; is_group := Some true |}.
Definition dev_testing : SlackChannel :=
  {| channel_id := "C0DEVTEST"; channel_name := Some "dev-testing";
     is_im := Some false; is_group := Some false |}.
Definition general : SlackChannel :=
  {| channel_id := "C0GENERAL"; channel_name := Some "general";
     is_im := Some false; is_group := Some false |}.

Definition message_in (c : SlackChannel) (who body : string) : CommandMessage :=
  {| user := who; channel := c; text := body; member := None; league := None;
     isModerator := None; ts := "1234567890.123456"; isPingModerator := false;
     matches := [Some body] |}.

(** The league module over the test leagues. *)
Definition test_LM : LeagueModule := registry test_leagues.

(** A text naming two leagues, in a channel without binding. *)
Definition ambiguous_message : CommandMessage :=
  message_in general "U0164C6FXLK" "45+45 lonewolf".

(** [/^pairings$/i], on ASCII text. *)
Definition regex_pairings : RegExp :=
  {| source := "^pairings$";
     exec t := if String.eqb (JsString.toLowerCase t) "pairings"
               then Some [Some t] else None |}.

(** A listener whose callback replies in the channel of the message. *)
Definition replying_listener (kind : ListenerType)
    (mw : option (list MiddlewareFn)) : SlackRTMEventListenerOptions :=
  {| type := kind; patterns := [regex_pairings]; messageTypes := [ambient];
     middleware := mw;
     callback := fun bot m => reply m "Here are the pairings." |}.

(** A listener whose callback throws. *)
Definition throwing_listener (kind : ListenerType) : SlackRTMEventListenerOptions :=
  {| type := kind; patterns := [regex_pairings]; messageTypes := [ambient];
     middleware := None;
     callback := fun bot m => throw (Error "boom") |}.

(** The same throwing callback behind the Events API entry point. *)
Definition utils_throwing_listener : Utils.SlackEventListenerOptions :=
  {| Utils.type := command; Utils.patterns := [regex_pairings];
     Utils.messageTypes := [ambient]; Utils.middleware := None;
     Utils.callback := fun m => throw (Error "boom") |}.

End Reference.

(** * Vocabulary of the properties *)

Module UtilsPred.
Import JsString Utils.

(** The mention markup of the bot, [<@botUserId>]. *)
Definition markup (botUserId : string) : string := "<@" +:+ botUserId +:+ ">".

(** The flag of a context that stands for a category. *)
Definition has_category (c : ContextFlags) (t : HearsEventType) : bool :=
  match t with
  | direct_message => isDirectMessage c
  | direct_mention => isDirectMention c
  | ambient => isAmbient c
  | bot_message => isBotMessage c
  end.

(** The categories whose flag is set. *)
Definition categories (c : ContextFlags) : list HearsEventType :=
  filter (fun t => has_category c t = true)
         [direct_message; direct_mention; ambient; bot_message].

(** "Exactly one of the four flags is true". *)
Definition exactly_one_category (c : ContextFlags) : Prop :=
  length (categories c) = 1.

(** The category a [type] label names. *)
Definition category_of_label (t : ContextType) : HearsEventType :=
  match t with
  | mention => direct_mention
  | DM => direct_message
  | ambient_label => ambient
  end.

(** The channels of the tests of [determineMessageContext]. *)
Definition channel_C12345 : SlackChannel :=
  {| channel_id := "C12345"; channel_name := None;
     is_im := None; is_group := None |}.
Definition channel_D12345 : SlackChannel :=
  {| channel_id := "D12345"; channel_name := None;
     is_im := Some true; is_group := Some false |}.

(** A listener accepts a context when one of the categories flagged in
    the context is among its message types. *)
Definition accepts (l : SlackEventListenerOptions) (c : ContextFlags) : Prop :=
  exists t, has_category c t = true /\ t ∈ messageTypes l.

(** No listener/pattern pair of [ls] matches under the context. *)
Definition no_match (ls : list SlackEventListenerOptions) (text : string)
    (c : ContextFlags) : Prop :=
  forall l q, l ∈ ls -> accepts l c -> q ∈ patterns l ->
              String_match text q = None.

(** [l] is the first listener of [listeners] that accepts the context
    and has a matching pattern, and [m] is what its first matching
    pattern returns. *)
Definition first_match (listeners : list SlackEventListenerOptions)
    (text : string) (c : ContextFlags)
    (l : SlackEventListenerOptions) (m : RegExpMatchArray) : Prop :=
  exists ls1 ls2 ps1 p ps2,
    listeners = ls1 ++ l :: ls2 /\ patterns l = ps1 ++ p :: ps2 /\
    accepts l c /\ String_match text p = Some m /\
    (forall q, q ∈ ps1 -> String_match text q = None) /\
    no_match ls1 text c.

(** [/hello/i] on ASCII text, for the test "returns the first matching
    listener when multiple match". *)
Definition regex_hello : RegExp :=
  {| source := "hello";
     exec t := if JsString.includes (toLowerCase t) "hello"
               then Some [Some "hello"] else None |}.

Definition multiMatchListener (note : string) : SlackEventListenerOptions :=
  {| type := command; patterns := [regex_hello];
     messageTypes := [direct_message]; middleware := None;
     callback := fun _ => emit (Logged debug note) |}.

Definition dm_context : ContextFlags :=
  {| isDirectMessage := true; isDirectMention := false;
     isAmbient := false; isBotMessage := false |}.

(** A transform that neither throws nor has effects. *)
Definition pure_transform (g : CommandMessage -> CommandMessage)
  : CommandMessage -> Eff CommandMessage := fun m => ret (g m).

(** Left-to-right composition of transforms, exceptions and effects
    threaded through. *)
Definition compose_left (fns : list (CommandMessage -> Eff CommandMessage))
    (m : CommandMessage) : Eff CommandMessage :=
  fold_left (fun acc fn => bind acc fn) fns (ret m).

(** The message of the tests of [applyMiddleware]. *)
Definition sampleMessage : CommandMessage :=
  {| user := "U12345"; channel := channel_C12345; text := "hello world";
     member := None; league := None; isModerator := None;
     ts := "1234567890.123456"; isPingModerator := false;
     matches := [Some "hello world"; Some "hello"; Some "world"] |}.

Definition upper_text (m : CommandMessage) : CommandMessage :=
  {| user := user m; channel := channel m; text := toUpperCase (text m);
     member := member m; league := league m; isModerator := isModerator m;
     ts := ts m; isPingModerator := isPingModerator m; matches := matches m |}.

End UtilsPred.

Module LookupPred.
Import JsString Lookup.

(** The records registered under the id key [k] by a sequence of [add]
    calls, oldest first. *)
Definition registered_under (k : string) (entities : list SlackEntity)
  : list SlackEntity :=
  filter (fun e => toUpperCase (id e) = k) entities.

(** What the id maps hold after the calls [entities]. *)
Definition id_maps_track (entities : list SlackEntity) (s : SlackEntityLookup) : Prop :=
  forall k,
    byId s !! k = last (registered_under k entities) /\
    idDuplicates s !! k =
      match registered_under k entities with [] => None | l => Some l end.

(** The index a sequence of [add] calls leaves of a fresh one. *)
Definition index_of (entities : list SlackEntity) : SlackEntityLookup :=
  snd (add_all entities Lookup.empty).

(** Every character of [s] passes the test [p]. *)
Fixpoint all_chars (p : ascii -> bool) (s : string) : bool :=
  match s with
  | EmptyString => true
  | String c s' => p c && all_chars p s'
  end.

Definition is_lower_letter (c : ascii) : bool :=
  let n := nat_of_ascii c in (97 <=? n)%nat && (n <=? 122)%nat.

(** The key is a property name of [Object.prototype]. *)
Definition is_inherited (k : string) : bool :=
  bool_decide (k ∈ Object_prototype_keys).

(** The name keys [add] goes through for a record, in order: none for an
    id starting with D or a record without name, else the lower-cased
    name and lichess name that are not empty. *)
Definition name_keys (e : SlackEntity) : list string :=
  if startsWith (id e) "D" then []
  else match name e with
       | None => []
       | Some n =>
           (if truthy n then [toLowerCase n] else [])
           ++ match lichess_username e with
              | Some u => if truthy u then [toLowerCase u] else []
              | None => []
              end
       end.

(** The keys of a list that get filed: those before the first one that
    is a property name of [Object.prototype]. *)
Fixpoint filed_keys (keys : list string) : list string :=
  match keys with
  | [] => []
  | k :: rest => if is_inherited k then [] else k :: filed_keys rest
  end.

(** How an [add] call ends: it throws when one of the name keys of the
    record is a property name of [Object.prototype]. *)
Definition add_outcome (e : SlackEntity) : Outcome unit :=
  if existsb is_inherited (name_keys e)
  then Throw nameDuplicates_push_not_a_function
  else Return tt.

(** The name registrations of a sequence of [add] calls, oldest first. *)
Definition name_registrations (entities : list SlackEntity)
  : list (string * SlackEntity) :=
  flat_map (fun e => map (fun k => (k, e)) (filed_keys (name_keys e))) entities.

(** The records registered under the name key [k], oldest first. *)
Definition under_key (k : string) (regs : list (string * SlackEntity))
  : list SlackEntity :=
  map snd (filter (fun p => fst p = k) regs).

(** What the name maps hold after the registrations [regs]. *)
Definition name_maps_track (regs : list (string * SlackEntity))
    (s : SlackEntityLookup) : Prop :=
  forall k,
    byName s !! k = last (under_key k regs) /\
    nameDuplicates s !! k =
      match under_key k regs with [] => None | l => Some l end.

(** The warning [add] logs for a record, if any. *)
Definition add_warning (e : SlackEntity) : list Event :=
  if startsWith (id e) "D" then []
  else match name e with
       | None => [Logged warn (id e +:+ " does not have a name")]
       | Some _ => []
       end.

(** Every id with a primary entry has a duplicates entry. *)
Definition ids_consistent (s : SlackEntityLookup) : Prop :=
  forall k, is_Some (byId s !! k) -> is_Some (idDuplicates s !! k).

(** Every name with a primary entry has a duplicates entry, and no
    property name of [Object.prototype] has an entry of its own. *)
Definition names_consistent (s : SlackEntityLookup) : Prop :=
  forall k,
    (is_Some (byName s !! k) -> is_Some (nameDuplicates s !! k)) /\
    (k ∈ Object_prototype_keys ->
     byName s !! k = None /\ nameDuplicates s !! k = None).

(** The index after a call of [_addByIdWithDuplicate] that returned:
    the list of the key is continued when the key has a primary entry
    and started again when it has none. *)
Definition file_id (key : string) (e : SlackEntity) (s : SlackEntityLookup)
  : SlackEntityLookup :=
  {| byName := byName s; byId := <[key := e]> (byId s);
     nameDuplicates := nameDuplicates s;
     idDuplicates :=
       <[key := match byId s !! key with
                | Some _ => default [] (idDuplicates s !! key)
                | None => []
                end ++ [e]]> (idDuplicates s) |}.

(** The same for [_addByNameWithDuplicate]. *)
Definition file_name (key : string) (e : SlackEntity) (s : SlackEntityLookup)
  : SlackEntityLookup :=
  {| byName := <[key := e]> (byName s); byId := byId s;
     nameDuplicates :=
       <[key := match byName s !! key with
                | Some _ => default [] (nameDuplicates s !! key)
                | None => []
                end ++ [e]]> (nameDuplicates s);
     idDuplicates := idDuplicates s |}.

(** The index an [add] call leaves: the record filed under its id, and
    under the name keys before the first one at which the call throws. *)
Definition after_add (e : SlackEntity) (s : SlackEntityLookup)
  : SlackEntityLookup :=
  fold_left (fun s k => file_name k e s) (filed_keys (name_keys e))
            (file_id (toUpperCase (id e)) e s).

(** The scenario of the specification: the id U1 added twice. *)
Definition u1_first : SlackEntity :=
  {| id := "U1"; name := Some "alice"; lichess_username := None |}.
Definition u1_second : SlackEntity :=
  {| id := "u1"; name := Some "alice"; lichess_username := Some "Alice_L" |}.

(** A user whose display name is a property name of [Object.prototype]. *)
Definition u2_constructor : SlackEntity :=
  {| id := "U2"; name := Some "Constructor"; lichess_username := Some "carol" |}.

End LookupPred.

Module SlackPred.
Import JsString Slack.

(** The denial sent to a member who is not a moderator of [l]. *)
Definition denial (l : League) : string :=
  "You are not a moderator of the " +:+ league_name l
  +:+ " league. Your temerity has been logged.".

(** The replies in a trace, in order. *)
Definition replies (tr : list Event) : list Event := filter (fun e => is_Said e = true) tr.

(** The callback invocations in a trace, in order. *)
Definition invocations (tr : list Event) : list Event :=
  filter (fun e => is_Invoked e = true) tr.

(** The log lines of a trace at a level. *)
Definition logged_at (lvl : LogLevel) (tr : list Event) : list Event :=
  filter (fun e => is_Logged_at lvl e = true) tr.

Section WithModules.
Context `{LM : LeagueModule} `{FM : FuzzyModule}.

(** The handler of the inner [try] of [handleMatch]. *)
Definition inner_handler (error : JsError) : Eff unit :=
  run log LogLevel_error ("Error in command execution: " +:+ error_message error);
  if instanceof_StopControllerError error then
    log LogLevel_error "Middleware asked to not process controller callback: {}"
  else ret tt.

(** What [handleMatch] does once the member and the league are known. *)
Definition after_resolution (bot : SlackBot)
    (listener : SlackRTMEventListenerOptions) (message : CommandMessage)
    (_league : option League) (who : option (Property SlackEntity)) : Eff unit :=
  try_catch
    (dispatch bot listener
       (set_isPingModerator (pingModerator bot message who) message)
       _league who (allowedTypes _league who))
    inner_handler.

(** The first steps of [handleMatch]: the entry log line and the lookup
    of the acting member. *)
Definition resolve_member (bot : SlackBot)
    (listener : SlackRTMEventListenerOptions) (message : CommandMessage)
  : Eff (option (Property SlackEntity)) :=
  run log info ("handleMatch called with pattern: " +:+ pattern_sources listener
                +:+ " and message: " +:+ text message);
  if truthy (user message) then
    run log info ("Handle match found user: "
                  +:+ name_or_UNDEFINED
                        (Lookup.getByNameOrID (user message) (users bot))
                  +:+ " for ID: " +:+ user message);
    ret (Lookup.getByNameOrID (user message) (users bot))
  else ret None.

(** The member [handleMatch] resolves for the sender of a message. *)
Definition acting_member (bot : SlackBot) (message : CommandMessage)
  : option (Property SlackEntity) :=
  if truthy (user message)
  then Lookup.getByNameOrID (user message) (users bot)
  else None.

(** The league a key of [channelMap] is bound to, when the name it maps
    to is that of an existing league. *)
Definition bound_league (bot : SlackBot) (key : string) : option League :=
  match channelMap bot !! key with
  | Some target => league_getLeague bot (Some target)
  | None => None
  end.

(** Tier 1: the channel has a display name and it is bound. *)
Definition name_binding (bot : SlackBot) (message : CommandMessage)
  : option League :=
  match channel_name (channel message) with
  | Some n => if truthy n then bound_league bot n else None
  | None => None
  end.

(** Tier 2: the channel id is bound. *)
Definition id_binding (bot : SlackBot) (message : CommandMessage)
  : option League :=
  if truthy (channel_id (channel message))
  then bound_league bot (channel_id (channel message))
  else None.

(** The same message with another text. *)
Definition with_text (body : string) (m : CommandMessage) : CommandMessage :=
  {| user := user m; channel := channel m; text := body; member := member m;
     league := league m; isModerator := isModerator m; ts := ts m;
     isPingModerator := isPingModerator m; matches := matches m |}.

(** Tier 3 as [getLeague] runs it. *)
Definition text_tier (bot : SlackBot) (message : CommandMessage)
  : Eff (CommandMessage * option League) :=
  do found <- findLeagueByMessageText bot (set_league None message);
  ret (set_league found message, found).



(** Every best match is one of the labels handed to the matcher. *)
Definition matches_known (bot : SlackBot) (body : string) : Prop :=
  Forall (fun r => is_Some (targetToLeague (league_getAllLeagues bot) !! value r))
         (text_bestMatches (league_getAllLeagues bot) body).

(** [possibleLeagues] after the leagues [ls] were entered into [acc]. *)
Definition enter_leagues (ls : list League) (acc : gmap string League)
  : gmap string League :=
  fold_left (fun m l => <[league_name l := l]> m) ls acc.

End WithModules.

End SlackPred.

Module MorePred.
Import JsString Utils Lookup Slack UtilsPred LookupPred SlackPred.

(** The text [processChessterMessage] matches against the patterns. *)
Definition normalizedText (text : string) (botUserId : option string)
    (isDirectMention : bool) : string :=
  match botUserId with
  | Some b => if isDirectMention && truthy b then normalizeMessageText text b else text
  | None => text
  end.

(** The message [processChessterMessage] builds for a match. *)
Definition commandMessage (text user : string) (channel : SlackChannel)
    (ts : string) (botUserId : option string) (isDirectMention : bool)
    (found : RegExpMatchArray) : CommandMessage :=
  {| user := user; channel := channel;
     text := trim (normalizedText text botUserId isDirectMention);
     member := None; league := None; isModerator := None; ts := ts;
     isPingModerator := false; matches := found |}.

(** The line [processChessterMessage] logs on entry. *)
Definition processing_line (text : string) (channel : SlackChannel)
    (botUserId : option string) (isDirectMention : bool) : Event :=
  Logged info
    ("Processing "
     +:+ ContextType_toString
           (context_type (determineMessageContext (Some channel) isDirectMention))
     +:+ " message: " +:+ dquote
     +:+ normalizedText text botUserId isDirectMention +:+ dquote).

(** What [processChessterMessage] does with a matched listener. *)
Definition deliver (listener : SlackEventListenerOptions) (cm : CommandMessage)
  : Eff unit :=
  do processedMessage <- applyMiddleware cm (Utils.middleware listener);
  run emit (Invoked processedMessage);
  Utils.callback listener processedMessage.

(** The two events the [catch] of [processChessterMessage] adds. *)
Definition failure_events (e : JsError) : list Event :=
  [Logged LogLevel_error ("Error processing message: " +:+ error_toString e);
   Said None "Error processing message. Its probably MrScribbles' fault. :sexy-glbert:"].

(** The channel is an IM that is not a group. *)
Definition is_direct_channel (channel : option SlackChannel) : bool :=
  flag_or_false channel is_im && negb (flag_or_false channel is_group).


(** The reply of [requiresLeague]. *)
Definition league_request : string :=
  "This command requires you to specify the league you are interested in. Please include that next time".

(** A listener of the [app.message] loop that is wanted and has a
    matching pattern. *)
Definition message_candidate (text : string) (isDirectMessage isBotMessage : bool)
    (l : SlackRTMEventListenerOptions) : Prop :=
  message_isWanted l isDirectMessage isBotMessage = true /\
  is_Some (first_matching_pattern text (Slack.patterns l)).

(** A listener of the given kind that wants direct mentions and has a
    matching pattern. *)
Definition mention_candidate (kind : ListenerType) (text : string)
    (l : SlackRTMEventListenerOptions) : Prop :=
  Slack.type l = kind /\ wantsDirectMention l = true /\
  is_Some (first_matching_pattern text (Slack.patterns l)).

Global Instance message_candidate_dec text isDirectMessage isBotMessage l :
  Decision (message_candidate text isDirectMessage isBotMessage l).
Proof. unfold message_candidate. apply _. Defined.

Global Instance mention_candidate_dec kind text l :
  Decision (mention_candidate kind text l).
Proof. unfold mention_candidate. apply _. Defined.

(** A [handleMatch] call made for [chessterMessage]: the listener's first
    matching pattern gives the matches. *)
Definition first_match_call (chessterMessage : CommandMessage) (text : string)
    (call : SlackRTMEventListenerOptions * CommandMessage) : Prop :=
  exists matches,
    first_matching_pattern text (Slack.patterns (fst call)) = Some matches /\
    snd call = set_matches matches chessterMessage.

(** A listener for direct mentions of the bot with the pattern
    [/^pairings$/i]. *)
Definition mention_listener (kind : ListenerType) : SlackRTMEventListenerOptions :=
  {| Slack.type := kind; Slack.patterns := [Reference.regex_pairings];
     Slack.messageTypes := [direct_mention]; Slack.middleware := None;
     Slack.callback := fun bot m => reply m "Here are the pairings." |}.

Section WithLeagueModule.
Context `{LM : LeagueModule}.

(** The message a league command's callback receives. *)
Definition leagueCommandMessage (bot : SlackBot) (message : CommandMessage)
    (l : League) (mem : Property SlackEntity) : CommandMessage :=
  set_isModerator (Some (League_isModerator l (entity_lichess_username mem)))
    (set_member (Some mem)
       (set_league (Some l)
          (set_isPingModerator (pingModerator bot message (Some mem)) message))).

End WithLeagueModule.

End MorePred.

(** * Properties *)

(** ** First-occurrence replacement *)

Module JsStringFacts.
Import JsString.

Lemma app_cons (c : ascii) (s t : string) :
  String c s +:+ t = String c (s +:+ t).
Proof. reflexivity. Qed.

Lemma app_nil_l (t : string) : EmptyString +:+ t = t.
Proof. reflexivity. Qed.

Lemma length_app (s t : string) :
  String.length (s +:+ t) = String.length s + String.length t.
Proof.
  induction s as [|c s IH]; [reflexivity|].
  rewrite app_cons. simpl. now rewrite IH.
Qed.

Lemma app_assoc (s t u : string) : (s +:+ t) +:+ u = s +:+ (t +:+ u).
Proof.
  induction s as [|c s IH]; [reflexivity|].
  rewrite !app_cons. now rewrite IH.
Qed.

(** [startsWith] decides "is a prefix of". *)
Lemma startsWith_iff (s p : string) :
  startsWith s p = true <-> exists post, s = p +:+ post.
Proof.
  revert s; induction p as [|a p IH]; intros s.
  - simpl. split; [intros _; now exists s | reflexivity].
  - destruct s as [|b s]; simpl.
    + split; [discriminate | intros [post H]; discriminate].
    + destruct (Ascii.eqb_spec a b) as [->|Hne].
      * rewrite IH. split; intros [post H]; exists post.
        -- now rewrite H.
        -- rewrite app_cons in H. now injection H.
      * split; [discriminate|].
        intros [post H]. rewrite app_cons in H. injection H. congruence.
Qed.

Lemma slice_app (p post : string) : slice (String.length p) (p +:+ post) = post.
Proof.
  induction p as [|a p IH]; [now destruct post|].
  rewrite app_cons. simpl. exact IH.
Qed.

Lemma occurs_cons (pat s : string) (c : ascii) :
  occurs pat s -> occurs pat (String c s).
Proof. intros (pre & post & ->). now exists (String c pre), post. Qed.

Lemma occurs_prefix (pat s : string) : startsWith s pat = true -> occurs pat s.
Proof. rewrite startsWith_iff. intros [post ->]. now exists EmptyString, post. Qed.

(** An occurrence in [String c s] that is not at the front lies in [s]. *)
Lemma occurs_tail (pat s : string) (c : ascii) :
  occurs pat (String c s) -> startsWith (String c s) pat = false -> occurs pat s.
Proof.
  intros (pre & post & H) Hno. destruct pre as [|c' pre].
  - rewrite app_nil_l in H.
    assert (startsWith (String c s) pat = true) as Hyes
      by (apply startsWith_iff; now exists post).
    congruence.
  - rewrite app_cons in H. injection H as _ ->. now exists pre, post.
Qed.

(** When a longer pattern occurs, so does each of its prefixes. *)
Lemma occurs_app_l (p q s : string) : occurs (p +:+ q) s -> occurs p s.
Proof.
  intros (pre & post & ->). exists pre, (q +:+ post). now rewrite app_assoc.
Qed.

(** Without an occurrence the text is returned as it is. *)
Lemma replace_first_absent (s pat : string) :
  ~ occurs pat s -> replace_first s pat = s.
Proof.
  induction s as [|c s IH]; intros Hno.
  - simpl. destruct (startsWith EmptyString pat) eqn:E; [|reflexivity].
    exfalso. now apply Hno, occurs_prefix.
  - cbn [replace_first]. destruct (startsWith (String c s) pat) eqn:E.
    + exfalso. now apply Hno, occurs_prefix.
    + f_equal. apply IH. intros H. now apply Hno, occurs_cons.
Qed.

(** With an occurrence, exactly the pattern is removed, and the removed
    occurrence is the leftmost one. *)
Lemma replace_first_present (s pat : string) :
  occurs pat s ->
  exists pre post,
    s = pre +:+ pat +:+ post /\ replace_first s pat = pre +:+ post /\
    forall pre' post', s = pre' +:+ pat +:+ post' ->
                       String.length pre <= String.length pre'.
Proof.
  induction s as [|c s IH]; intros Hocc.
  - destruct Hocc as (pre & post & H). destruct pre; [|discriminate].
    destruct pat; [|discriminate]. rewrite !app_nil_l in H. subst post.
    exists EmptyString, EmptyString. repeat split. intros; simpl; lia.
  - cbn [replace_first]. destruct (startsWith (String c s) pat) eqn:E.
    + apply startsWith_iff in E as [post E]. exists EmptyString, post.
      split; [exact E|]. split; [rewrite E; apply slice_app|].
      intros; simpl; lia.
    + destruct (IH (occurs_tail _ _ _ Hocc E)) as (pre & post & Hs & Hr & Hmin).
      exists (String c pre), post. split; [rewrite app_cons; now rewrite <- Hs|].
      split; [rewrite app_cons; now rewrite Hr|].
      intros pre' post' H'. destruct pre' as [|c' pre'].
      * rewrite app_nil_l in H'.
        assert (startsWith (String c s) pat = true) as Hyes
          by (apply startsWith_iff; now exists post').
        congruence.
      * rewrite app_cons in H'. injection H' as _ H'. simpl.
        specialize (Hmin _ _ H'). lia.
Qed.

Lemma replace_first_length (s pat : string) :
  occurs pat s ->
  String.length (replace_first s pat) + String.length pat = String.length s.
Proof.
  intros H. destruct (replace_first_present _ _ H) as (pre & post & Hs & Hr & _).
  rewrite Hr. rewrite Hs at 1. rewrite !length_app. lia.
Qed.

Lemma replace_first_length_le (s pat : string) :
  String.length (replace_first s pat) <= String.length s.
Proof.
  induction s as [|c s IH].
  - simpl. destruct (startsWith EmptyString pat); [|simpl; lia].
    destruct (String.length pat); simpl; lia.
  - cbn [replace_first]. destruct (startsWith (String c s) pat) eqn:E.
    + apply startsWith_iff in E as [post E]. rewrite E, slice_app, length_app. lia.
    + simpl. lia.
Qed.

(** [includes] decides [occurs]. *)
Lemma includes_iff (s pat : string) : includes s pat = true <-> occurs pat s.
Proof.
  induction s as [|c s IH].
  - simpl. rewrite orb_false_r. split; [apply occurs_prefix|].
    intros (pre & post & H). destruct pre; [|discriminate].
    apply startsWith_iff. now exists post.
  - cbn [includes]. rewrite orb_true_iff, IH. split.
    + intros [H|H]; [now apply occurs_prefix | now apply occurs_cons].
    + intros H. destruct (startsWith (String c s) pat) eqn:E; [now left|].
      right. eapply occurs_tail; eauto.
Qed.

End JsStringFacts.

(** ** Laws of the effect monad *)

Section EffLaws.
Context {A B C : Type}.

Lemma bind_ret_l (a : A) (k : A -> Eff B) : bind (ret a) k = k a.
Proof. unfold bind, ret. now destruct (k a). Qed.

Lemma bind_ret_r (c : Eff A) : bind c ret = c.
Proof. destruct c as [tr [a|e]]; simpl; [now rewrite app_nil_r | reflexivity]. Qed.

Lemma bind_assoc (c : Eff A) (k : A -> Eff B) (h : B -> Eff C) :
  bind (bind c k) h = bind c (fun a => bind (k a) h).
Proof.
  destruct c as [tr [a|e]]; simpl; [|reflexivity].
  destruct (k a) as [tr1 [b|e]]; simpl; [|reflexivity].
  destruct (h b) as [tr2 o]. now rewrite app_assoc.
Qed.

Lemma bind_ext (c : Eff A) (k k' : A -> Eff B) :
  (forall a, k a = k' a) -> bind c k = bind c k'.
Proof. intros H. destruct c as [tr [a|e]]; simpl; [now rewrite H | reflexivity]. Qed.

Lemma bind_throw (e : JsError) (k : A -> Eff B) : bind (throw e) k = throw e.
Proof. reflexivity. Qed.

Lemma trace_bind (c : Eff A) (k : A -> Eff B) :
  trace (bind c k) =
  trace c ++ match outcome c with Return a => trace (k a) | Throw _ => [] end.
Proof.
  destruct c as [tr [a|e]]; simpl; [|now rewrite app_nil_r].
  now destruct (k a).
Qed.
End EffLaws.

(** ** chessterUtils.ts: normalisation, classification, matching, middleware *)

Module UtilsSpec.
Import JsString JsStringFacts Utils UtilsPred.

(** *** normalizeMessageText *)

Lemma markup_space (b : string) : "<@" +:+ b +:+ "> " = markup b +:+ " ".
Proof. unfold markup. now rewrite !app_assoc. Qed.

Lemma normalizeMessageText_eq (t b : string) :
  normalizeMessageText t b =
  replace_first (replace_first t (markup b +:+ " ")) (markup b).
Proof. unfold normalizeMessageText. now rewrite markup_space. Qed.

Lemma markup_length (b : string) : 0 < String.length (markup b).
Proof. unfold markup. rewrite !length_app. simpl. lia. Qed.

(** A text without the markup is left as it is. *)
Lemma normalizeMessageText_absent (t b : string) :
  ~ occurs (markup b) t -> normalizeMessageText t b = t.
Proof.
  intros Hno. rewrite normalizeMessageText_eq.
  rewrite (replace_first_absent t (markup b +:+ " ")).
  - now apply replace_first_absent.
  - intros H. now apply Hno, occurs_app_l with (q := " ").
Qed.

(** A text with the markup gets strictly shorter. *)
Lemma normalizeMessageText_shrinks (t b : string) :
  occurs (markup b) t ->
  String.length (normalizeMessageText t b) < String.length t.
Proof.
  intros Hocc. rewrite normalizeMessageText_eq.
  pose proof (markup_length b) as Hpos.
  destruct (JsString.includes t (markup b +:+ " ")) eqn:E.
  - apply includes_iff, replace_first_length in E.
    pose proof (replace_first_length_le
                  (replace_first t (markup b +:+ " ")) (markup b)).
    rewrite length_app in E. lia.
  - rewrite (replace_first_absent t (markup b +:+ " ")).
    + apply replace_first_length in Hocc. lia.
    + intros H. apply includes_iff in H. congruence.
Qed.

(** The tests of [normalizeMessageText]. *)
Example normalize_mention_with_space :
  normalizeMessageText "<@U98765> help" "U98765" = "help".
Proof. reflexivity. Qed.

Example normalize_mention_without_space :
  normalizeMessageText "<@U98765>help" "U98765" = "help".
Proof. reflexivity. Qed.

Example normalize_no_mention :
  normalizeMessageText "help me" "U98765" = "help me".
Proof. reflexivity. Qed.

(** Normalising a second time leaves the text unchanged exactly when
    the once-normalised text no longer contains the markup
    [<@botUserId>]; in particular a text without markup is a fixed
    point. *)
Lemma normalizeMessageText_idempotent_iff (t botUserId : string) :
  normalizeMessageText (normalizeMessageText t botUserId) botUserId
    = normalizeMessageText t botUserId
  <-> ~ occurs (markup botUserId) (normalizeMessageText t botUserId).
Proof.
  split.
  - intros Heq Hocc. apply normalizeMessageText_shrinks in Hocc.
    rewrite Heq in Hocc. lia.
  - apply normalizeMessageText_absent.
Qed.

Lemma normalizeMessageText_idempotent_iff_witness :
  normalizeMessageText (normalizeMessageText "<@U98765> help" "U98765") "U98765"
    = normalizeMessageText "<@U98765> help" "U98765".
Proof.
  apply (normalizeMessageText_idempotent_iff "<@U98765> help" "U98765").
  intros H. apply includes_iff in H. vm_compute in H. discriminate.
Defined.

(** C9: [normalizeMessageText] removes one mention followed by a space
    and one bare mention, the first of each, and leaves every other
    mention in the text, so that a text with the mention twice still
    holds it after one call and loses it only at the second: the
    function is not idempotent.  The other runs are the three tests of
    the function and a text on which both replacements act. *)
Theorem normalizeMessageText_strips_one_mention :
  let t := "<@U98765><@U98765>help" in
  normalizeMessageText t "U98765" = "<@U98765>help" /\
  normalizeMessageText (normalizeMessageText t "U98765") "U98765" = "help" /\
  normalizeMessageText (normalizeMessageText t "U98765") "U98765"
    <> normalizeMessageText t "U98765" /\
  normalizeMessageText "<@U98765> <@U98765> <@U98765> help" "U98765"
    = " <@U98765> help" /\
  normalizeMessageText " <@U98765> help" "U98765" = " help" /\
  normalizeMessageText "<@U98765> help" "U98765" = "help" /\
  normalizeMessageText "<@U98765>help" "U98765" = "help" /\
  normalizeMessageText "help me" "U98765" = "help me".
Proof. vm_compute. repeat split. discriminate. Qed.

(** *** determineMessageContext *)

Example context_direct_message :
  determineMessageContext (Some channel_D12345) false =
  {| context_type := DM;
     flags := {| isDirectMessage := true; isDirectMention := false;
                 isAmbient := false; isBotMessage := false |} |}.
Proof. reflexivity. Qed.

Example context_direct_mention :
  determineMessageContext (Some channel_C12345) true =
  {| context_type := mention;
     flags := {| isDirectMessage := false; isDirectMention := true;
                 isAmbient := false; isBotMessage := false |} |}.
Proof. reflexivity. Qed.

Example context_ambient :
  determineMessageContext (Some channel_C12345) false =
  {| context_type := ambient_label;
     flags := {| isDirectMessage := false; isDirectMention := false;
                 isAmbient := true; isBotMessage := false |} |}.
Proof. reflexivity. Qed.

(** C2, as stated, fails: a mention inside an IM channel that is not a
    group has both [isDirectMessage] and [isDirectMention] set. *)
Lemma determineMessageContext_mention_in_im :
  isDirectMention (determineMessageContext (Some channel_D12345) true) = true /\
  isDirectMessage (determineMessageContext (Some channel_D12345) true) = true /\
  ~ exactly_one_category (determineMessageContext (Some channel_D12345) true).
Proof. repeat split. vm_compute. discriminate. Qed.

(** C2, amended: the [type] label always names one category whose flag
    is set, [isBotMessage] is never set, [isAmbient] excludes the two
    other flags, and exactly one flag is set in every case but one: a
    mention in an IM channel that is not a group, where the flags set
    are [isDirectMessage] and [isDirectMention] and the label is
    [mention]. *)
Theorem determineMessageContext_categories
    (channel : option SlackChannel) (isDirectMention : bool) :
  let c := determineMessageContext channel isDirectMention in
  let im := flag_or_false channel is_im && negb (flag_or_false channel is_group) in
  has_category c (category_of_label (context_type c)) = true /\
  isBotMessage c = false /\
  (isAmbient c = true ->
     Utils.isDirectMessage c = false /\ Utils.isDirectMention c = false) /\
  (exactly_one_category c <-> isDirectMention && im = false) /\
  (isDirectMention && im = true ->
     categories c = [direct_message; direct_mention] /\
     context_type c = mention).
Proof.
  unfold exactly_one_category, categories, determineMessageContext.
  destruct isDirectMention,
    (flag_or_false channel is_im), (flag_or_false channel is_group);
    cbn; repeat split; intros; try discriminate; try reflexivity.
Qed.

(** *** doesListenerWantMessageType and findMatchingListener *)

Lemma doesListenerWantMessageType_iff (l : SlackEventListenerOptions)
    (c : ContextFlags) :
  doesListenerWantMessageType l c = true <-> accepts l c.
Proof.
  unfold doesListenerWantMessageType, accepts, Utils.includes. split.
  - repeat
      match goal with
      | |- context [?b && bool_decide ?P] =>
          destruct b eqn:?; simpl;
          [destruct (bool_decide_reflect P); simpl|]
      end;
      intros; try discriminate;
      first [ exists direct_message; now split
            | exists direct_mention; now split
            | exists ambient; now split
            | exists bot_message; now split ].
  - intros (t & Hflag & Hin).
    destruct t; simpl in Hflag; rewrite Hflag; simpl;
      rewrite (bool_decide_eq_true_2 _ Hin);
      repeat match goal with
             | |- context [if ?b && ?d then _ else _] => destruct (b && d)
             end; reflexivity.
Qed.

(** With a single flag set, accepting means listing that category. *)
Lemma accepts_single (l : SlackEventListenerOptions) (c : ContextFlags)
    (t : HearsEventType) :
  categories c = [t] -> (accepts l c <-> t ∈ messageTypes l).
Proof.
  intros Hc. unfold accepts. split.
  - intros (t' & Hflag & Hin).
    assert (t' ∈ categories c) as Ht'.
    { unfold categories. apply list_elem_of_filter. split; [exact Hflag|].
      destruct t'; set_solver. }
    rewrite Hc in Ht'. apply list_elem_of_singleton in Ht'. now subst.
  - intros Hin. exists t. split; [|exact Hin].
    assert (t ∈ categories c) as Ht by (rewrite Hc; set_solver).
    unfold categories in Ht. now apply list_elem_of_filter in Ht as [? _].
Qed.

(** The inner loop returns the result of the first pattern that matches. *)
Lemma first_matching_pattern_Some (text : string) (ps : list RegExp)
    (m : RegExpMatchArray) :
  first_matching_pattern text ps = Some m <->
  exists ps1 p ps2,
    ps = ps1 ++ p :: ps2 /\ String_match text p = Some m /\
    forall q, q ∈ ps1 -> String_match text q = None.
Proof.
  induction ps as [|p ps IH]; simpl.
  - split; [discriminate | intros (ps1 & p & ps2 & H & _); now destruct ps1].
  - destruct (String_match text p) as [m'|] eqn:E.
    + split.
      * intros [= ->]. exists [], p, ps. repeat split; [exact E|].
        intros q Hq. now apply not_elem_of_nil in Hq.
      * intros (ps1 & p' & ps2 & H & Hm & Hnone). destruct ps1 as [|q ps1].
        -- injection H as -> ->. congruence.
        -- injection H as -> ->. rewrite Hnone in E by (apply elem_of_cons; now left). discriminate.
    + rewrite IH. split.
      * intros (ps1 & p' & ps2 & -> & Hm & Hnone).
        exists (p :: ps1), p', ps2. repeat split; [exact Hm|].
        intros q Hq. apply elem_of_cons in Hq as [->|Hq]; auto.
      * intros (ps1 & p' & ps2 & H & Hm & Hnone). destruct ps1 as [|q ps1].
        -- injection H as -> ->. congruence.
        -- injection H as -> ->. exists ps1, p', ps2. repeat split; [exact Hm|].
           intros q' Hq'. apply Hnone. apply elem_of_cons; now right.
Qed.

Lemma first_matching_pattern_None (text : string) (ps : list RegExp) :
  first_matching_pattern text ps = None <->
  forall q, q ∈ ps -> String_match text q = None.
Proof.
  induction ps as [|p ps IH]; simpl.
  - split; [intros _ q Hq; now apply not_elem_of_nil in Hq | reflexivity].
  - destruct (String_match text p) eqn:E.
    + split; [discriminate|]. intros H. rewrite H in E by (apply elem_of_cons; now left). discriminate.
    + rewrite IH. split.
      * intros H q Hq. apply elem_of_cons in Hq as [->|Hq]; auto.
      * intros H q Hq. apply H. apply elem_of_cons; now right.
Qed.

Lemma no_match_nil (text : string) (c : ContextFlags) : no_match [] text c.
Proof. intros l q Hl. now apply not_elem_of_nil in Hl. Qed.

Lemma no_match_cons (l : SlackEventListenerOptions)
    (ls : list SlackEventListenerOptions) (text : string) (c : ContextFlags) :
  no_match (l :: ls) text c <->
  (accepts l c -> first_matching_pattern text (patterns l) = None) /\
  no_match ls text c.
Proof.
  unfold no_match. split.
  - intros H. split.
    + intros Hacc. apply first_matching_pattern_None. intros q Hq.
      apply (H l q); [apply elem_of_cons; now left | exact Hacc | exact Hq].
    + intros l' q Hl'. apply H. apply elem_of_cons; now right.
  - intros [Hl Hls] l' q Hl' Hacc Hq. apply elem_of_cons in Hl' as [->|Hl'].
    + eapply first_matching_pattern_None; eauto.
    + eapply Hls; eauto.
Qed.

Lemma findMatchingListener_None (listeners : list SlackEventListenerOptions)
    (text : string) (c : ContextFlags) :
  findMatchingListener listeners text c = None <-> no_match listeners text c.
Proof.
  induction listeners as [|l ls IH]; simpl.
  - split; [intros _; apply no_match_nil | reflexivity].
  - rewrite no_match_cons, <- IH, <- doesListenerWantMessageType_iff.
    destruct (doesListenerWantMessageType l c); simpl.
    + destruct (first_matching_pattern text (patterns l)).
      * split; [discriminate | intros [H _]; now specialize (H eq_refl)].
      * split; [now intros -> | now intros [_ ->]].
    + split; [now intros -> | now intros [_ ->]].
Qed.

Lemma findMatchingListener_Some (listeners : list SlackEventListenerOptions)
    (text : string) (c : ContextFlags)
    (l : SlackEventListenerOptions) (m : RegExpMatchArray) :
  first_match listeners text c l m ->
  findMatchingListener listeners text c = Some (l, m).
Proof.
  intros (ls1 & ls2 & ps1 & p & ps2 & -> & Hps & Hacc & Hm & Hps1 & Hls1).
  induction ls1 as [|l1 ls1 IH]; simpl.
  - apply doesListenerWantMessageType_iff in Hacc. rewrite Hacc. simpl.
    assert (first_matching_pattern text (patterns l) = Some m) as ->; [|reflexivity].
    apply first_matching_pattern_Some. now exists ps1, p, ps2.
  - apply no_match_cons in Hls1 as [Hl1 Hls1]. rewrite (IH Hls1).
    destruct (doesListenerWantMessageType l1 c) eqn:E; simpl; [|reflexivity].
    apply doesListenerWantMessageType_iff in E. now rewrite (Hl1 E).
Qed.

Example findMatchingListener_first_of_two :
  findMatchingListener [multiMatchListener "1"; multiMatchListener "2"]
                       "hello" dm_context
  = Some (multiMatchListener "1", [Some "hello"]).
Proof. reflexivity. Qed.

Example findMatchingListener_no_listener :
  findMatchingListener [multiMatchListener "1"; multiMatchListener "2"]
                       "help" dm_context = None.
Proof. reflexivity. Qed.

(** C1: [findMatchingListener] returns the first listener, in
    registration order, that accepts the category flagged in the context
    and has a matching pattern, with the match of its first matching
    pattern in declaration order; what is registered after that listener
    does not change the result; and it returns [null] exactly when no
    accepted listener has a matching pattern. *)
Theorem findMatchingListener_first_match
    (listeners : list SlackEventListenerOptions) (text : string)
    (c : ContextFlags) :
  match findMatchingListener listeners text c with
  | Some (l, m) =>
      exists ls1 ls2 ps1 p ps2,
        listeners = ls1 ++ l :: ls2 /\ patterns l = ps1 ++ p :: ps2 /\
        accepts l c /\ String_match text p = Some m /\
        (forall q, q ∈ ps1 -> String_match text q = None) /\
        no_match ls1 text c /\
        (forall rest, findMatchingListener (ls1 ++ l :: rest) text c = Some (l, m))
  | None => no_match listeners text c
  end.
Proof.
  destruct (findMatchingListener listeners text c) as [[l m]|] eqn:E;
    [|now apply findMatchingListener_None].
  revert E. induction listeners as [|l1 ls IH]; simpl; [discriminate|].
  destruct (doesListenerWantMessageType l1 c) eqn:Hw; simpl.
  - destruct (first_matching_pattern text (patterns l1)) as [m1|] eqn:Hp.
    + intros [= -> ->].
      apply first_matching_pattern_Some in Hp as (ps1 & p & ps2 & Hps & Hm & Hnone).
      apply doesListenerWantMessageType_iff in Hw.
      exists [], ls, ps1, p, ps2. repeat split; auto using no_match_nil.
      intros rest. apply findMatchingListener_Some.
      exists [], rest, ps1, p, ps2. repeat split; auto using no_match_nil.
    + intros E. destruct (IH E) as (ls1 & ls2 & ps1 & p & ps2 & -> & Hps & Hacc
                                     & Hm & Hnone & Hls1 & _).
      assert (no_match (l1 :: ls1) text c) as Hno
        by (apply no_match_cons; split; auto).
      exists (l1 :: ls1), ls2, ps1, p, ps2. repeat split; auto.
      intros rest. apply findMatchingListener_Some.
      exists (l1 :: ls1), rest, ps1, p, ps2. repeat split; auto.
  - intros E. destruct (IH E) as (ls1 & ls2 & ps1 & p & ps2 & -> & Hps & Hacc
                                   & Hm & Hnone & Hls1 & _).
    assert (no_match (l1 :: ls1) text c) as Hno.
    { apply no_match_cons. split; [|exact Hls1].
      intros Hacc1. apply doesListenerWantMessageType_iff in Hacc1. congruence. }
    exists (l1 :: ls1), ls2, ps1, p, ps2. repeat split; auto.
    intros rest. apply findMatchingListener_Some.
    exists (l1 :: ls1), rest, ps1, p, ps2. repeat split; auto.
Qed.

(** *** applyMiddleware *)

Lemma middleware_loop_fold (fns : list (CommandMessage -> Eff CommandMessage))
    (c : Eff CommandMessage) :
  bind c (middleware_loop fns) = fold_left (fun acc fn => bind acc fn) fns c.
Proof.
  revert c. induction fns as [|fn fns IH]; intros c; simpl.
  - apply bind_ret_r.
  - rewrite <- IH. now rewrite bind_assoc.
Qed.

Lemma fold_pure (gs : list (CommandMessage -> CommandMessage)) (m : CommandMessage) :
  fold_left (fun acc fn => bind acc fn) (map pure_transform gs) (ret m)
  = ret (fold_left (fun x g => g x) gs m).
Proof.
  revert m. induction gs as [|g gs IH]; intros m; [reflexivity|].
  cbn [map fold_left]. rewrite bind_ret_l. apply IH.
Qed.

Example applyMiddleware_two_in_sequence :
  applyMiddleware sampleMessage
    (Some [pure_transform upper_text; pure_transform (set_isPingModerator true)])
  = ret (set_isPingModerator true (upper_text sampleMessage)) /\
  text (upper_text sampleMessage) = "HELLO WORLD".
Proof. split; reflexivity. Qed.

(** C10: without middleware ([undefined] or an empty array)
    [applyMiddleware] returns the message itself; with a non-empty list
    it is the left-to-right composition of the transforms, which for
    transforms that do not throw is plain function composition. *)
Theorem applyMiddleware_composition (m : CommandMessage) :
  applyMiddleware m None = ret m /\
  applyMiddleware m (Some []) = ret m /\
  (forall fns, applyMiddleware m (Some fns) = compose_left fns m) /\
  (forall fns fn,
      applyMiddleware m (Some (fns ++ [fn])) = bind (applyMiddleware m (Some fns)) fn) /\
  (forall gs, applyMiddleware m (Some (map pure_transform gs))
              = ret (fold_left (fun x g => g x) gs m)).
Proof.
  assert (forall fns, applyMiddleware m (Some fns) = compose_left fns m) as Hfold.
  { intros fns. unfold applyMiddleware, compose_left.
    destruct fns as [|fn fns]; [reflexivity|]. simpl length. simpl Nat.eqb.
    cbv iota. rewrite <- middleware_loop_fold. now rewrite bind_ret_l. }
  repeat split; try reflexivity; [exact Hfold| |].
  - intros fns fn. rewrite !Hfold. unfold compose_left.
    now rewrite fold_left_app.
  - intros gs. rewrite Hfold. apply fold_pure.
Qed.

End UtilsSpec.

(** ** The entity index *)

Module LookupSpec.
Import JsString Lookup LookupPred.

(** *** Reading a plain object *)

Lemma get_property_own {A} (m : gmap string A) (k : string) (a : A) :
  m !! k = Some a -> get_property m k = Some (Own a).
Proof. unfold get_property. now intros ->. Qed.

Lemma get_property_missing {A} (m : gmap string A) (k : string) :
  m !! k = None ->
  get_property m k = if is_inherited k then Some (Inherited k) else None.
Proof. unfold get_property, is_inherited. now intros ->. Qed.

Lemma get_property_ext {A} (m1 m2 : gmap string A) (k : string) :
  m1 !! k = m2 !! k -> get_property m1 k = get_property m2 k.
Proof. unfold get_property. now intros ->. Qed.

Lemma is_inherited_true (k : string) :
  is_inherited k = true <-> k ∈ Object_prototype_keys.
Proof. apply bool_decide_eq_true. Qed.

Lemma is_inherited_false (k : string) :
  is_inherited k = false <-> k ∉ Object_prototype_keys.
Proof. apply bool_decide_eq_false. Qed.

(** Case mapping leaves no letter of the other case, and every property
    name of [Object.prototype] has a lower-case letter: no upper-cased
    key is inherited, and a lower-cased key that is inherited is
    [constructor] or [__proto__]. *)
Lemma upper_ascii_not_lower (c : ascii) : is_lower_letter (upper_ascii c) = false.
Proof. destruct c as [[] [] [] [] [] [] [] []]; reflexivity. Qed.


Lemma toUpperCase_no_lower (s : string) :
  all_chars (fun c => negb (is_lower_letter c)) (toUpperCase s) = true.
Proof.
  induction s as [|c s IH]; [reflexivity|]. cbn [toUpperCase all_chars].
  now rewrite upper_ascii_not_lower, IH.
Qed.


Lemma toUpperCase_not_inherited (i : string) :
  toUpperCase i ∉ Object_prototype_keys.
Proof.
  intros H. pose proof (toUpperCase_no_lower i) as N.
  unfold Object_prototype_keys in H.
  repeat (apply elem_of_cons in H as [H|H];
          [rewrite H in N; vm_compute in N; discriminate|]).
  now apply not_elem_of_nil in H.
Qed.



(** *** The two filing steps *)

Lemma and_then_returns (s : SlackEntityLookup) (k : SlackEntityLookup -> Call) :
  and_then (returns s) k = k s.
Proof. unfold and_then, returns, ret. now destruct (k s) as [[tr o] s']. Qed.

Lemma _addByIdWithDuplicate_returns (key : string) (e : SlackEntity)
    (s : SlackEntityLookup) :
  ids_consistent s -> key ∉ Object_prototype_keys ->
  _addByIdWithDuplicate key e s = returns (file_id key e s).
Proof.
  intros Hc Hk. unfold _addByIdWithDuplicate, file_id.
  destruct (byId s !! key) as [x|] eqn:Hb.
  - rewrite (get_property_own _ _ _ Hb).
    destruct (Hc key) as [l Hl]; [rewrite Hb; eauto|].
    now rewrite (get_property_own _ _ _ Hl), Hl.
  - rewrite (get_property_missing _ _ Hb).
    apply is_inherited_false in Hk. now rewrite Hk.
Qed.

Lemma _addByNameWithDuplicate_returns (key : string) (e : SlackEntity)
    (s : SlackEntityLookup) :
  names_consistent s -> key ∉ Object_prototype_keys ->
  _addByNameWithDuplicate key e s = returns (file_name key e s).
Proof.
  intros Hc Hk. unfold _addByNameWithDuplicate, file_name.
  destruct (byName s !! key) as [x|] eqn:Hb.
  - rewrite (get_property_own _ _ _ Hb).
    destruct (Hc key) as [Hsome _]. destruct Hsome as [l Hl]; [rewrite Hb; eauto|].
    now rewrite (get_property_own _ _ _ Hl), Hl.
  - rewrite (get_property_missing _ _ Hb).
    apply is_inherited_false in Hk. now rewrite Hk.
Qed.

(** On a key that [Object.prototype] has, [_addByNameWithDuplicate]
    throws and leaves the index as it was. *)
Lemma _addByNameWithDuplicate_throws (key : string) (e : SlackEntity)
    (s : SlackEntityLookup) :
  names_consistent s -> key ∈ Object_prototype_keys ->
  _addByNameWithDuplicate key e s = throws nameDuplicates_push_not_a_function s.
Proof.
  intros Hc Hk. unfold _addByNameWithDuplicate.
  destruct (Hc key) as [_ Hnone]. destruct (Hnone Hk) as [Hb Hd].
  rewrite (get_property_missing _ _ Hb), (get_property_missing _ _ Hd).
  apply is_inherited_true in Hk. now rewrite Hk.
Qed.

Lemma file_id_consistent (key : string) (e : SlackEntity) (s : SlackEntityLookup) :
  ids_consistent s -> names_consistent s ->
  ids_consistent (file_id key e s) /\ names_consistent (file_id key e s).
Proof.
  intros Hi Hn. split; [|exact Hn].
  intros k. cbn [file_id byId idDuplicates].
  destruct (decide (key = k)) as [<-|Hne].
  - rewrite !lookup_insert_eq. eauto.
  - rewrite !lookup_insert_ne by exact Hne. apply Hi.
Qed.

Lemma file_name_consistent (key : string) (e : SlackEntity) (s : SlackEntityLookup) :
  ids_consistent s -> names_consistent s -> key ∉ Object_prototype_keys ->
  ids_consistent (file_name key e s) /\ names_consistent (file_name key e s).
Proof.
  intros Hi Hn Hk. split; [exact Hi|].
  intros k. cbn [file_name byName nameDuplicates].
  destruct (decide (key = k)) as [<-|Hne].
  - rewrite !lookup_insert_eq. split; [eauto | contradiction].
  - rewrite !lookup_insert_ne by exact Hne. apply Hn.
Qed.

(** *** One call of [add] *)

Lemma fold_file_name_consistent (e : SlackEntity) (keys : list string)
    (s : SlackEntityLookup) :
  ids_consistent s -> names_consistent s ->
  let s' := fold_left (fun s k => file_name k e s) (filed_keys keys) s in
  ids_consistent s' /\ names_consistent s'.
Proof.
  revert s. induction keys as [|k keys IH]; intros s Hi Hn; [now split|].
  cbn [filed_keys]. destruct (is_inherited k) eqn:Hk; [now split|].
  cbn [fold_left]. apply is_inherited_false in Hk.
  destruct (file_name_consistent k e s Hi Hn Hk) as [Hi' Hn'].
  now apply IH.
Qed.

Lemma after_add_consistent (e : SlackEntity) (s : SlackEntityLookup) :
  ids_consistent s -> names_consistent s ->
  ids_consistent (after_add e s) /\ names_consistent (after_add e s).
Proof.
  intros Hi Hn. unfold after_add.
  destruct (file_id_consistent (toUpperCase (id e)) e s Hi Hn) as [Hi' Hn'].
  now apply fold_file_name_consistent.
Qed.

(** On an index whose maps are in step, an [add] call logs its warning
    if any, ends as [add_outcome] says, and leaves [after_add]. *)
Lemma add_spec (e : SlackEntity) (s : SlackEntityLookup) :
  ids_consistent s -> names_consistent s ->
  add e s = ((add_warning e, add_outcome e), after_add e s).
Proof.
  intros Hi Hn. unfold add.
  rewrite (_addByIdWithDuplicate_returns _ e s Hi (toUpperCase_not_inherited _)),
    and_then_returns.
  destruct (file_id_consistent (toUpperCase (id e)) e s Hi Hn) as [Hi1 Hn1].
  unfold add_warning, add_outcome, after_add, name_keys.
  set (s1 := file_id (toUpperCase (id e)) e s) in *.
  destruct (startsWith (id e) "D"); [reflexivity|].
  destruct (name e) as [n|]; [|reflexivity].
  assert (forall k s0, ids_consistent s0 -> names_consistent s0 ->
            forall rest : SlackEntityLookup -> Call,
            and_then (_addByNameWithDuplicate k e s0) rest =
              if is_inherited k
              then throws nameDuplicates_push_not_a_function s0
              else rest (file_name k e s0)) as Hstep.
  { intros k s0 Hi0 Hn0 rest. destruct (is_inherited k) eqn:Hk.
    - apply is_inherited_true in Hk.
      now rewrite (_addByNameWithDuplicate_throws k e s0 Hn0 Hk).
    - apply is_inherited_false in Hk.
      now rewrite (_addByNameWithDuplicate_returns k e s0 Hn0 Hk), and_then_returns. }
  assert (forall k s0, ids_consistent s0 -> names_consistent s0 ->
            _addByNameWithDuplicate k e s0 =
              if is_inherited k
              then throws nameDuplicates_push_not_a_function s0
              else returns (file_name k e s0)) as Hlast.
  { intros k s0 Hi0 Hn0. destruct (is_inherited k) eqn:Hk.
    - apply is_inherited_true in Hk.
      now apply _addByNameWithDuplicate_throws.
    - apply is_inherited_false in Hk.
      now apply _addByNameWithDuplicate_returns. }
  destruct (truthy n).
  - rewrite (Hstep _ _ Hi1 Hn1). cbn [app existsb filed_keys].
    destruct (is_inherited (toLowerCase n)) eqn:Hk1; [reflexivity|].
    apply is_inherited_false in Hk1.
    destruct (file_name_consistent (toLowerCase n) e s1 Hi1 Hn1 Hk1) as [Hi2 Hn2].
    cbn [orb fold_left].
    destruct (lichess_username e) as [u|]; [|reflexivity].
    destruct (truthy u); [|reflexivity].
    rewrite (Hlast _ _ Hi2 Hn2). cbn [existsb filed_keys].
    now destruct (is_inherited (toLowerCase u)).
  - rewrite and_then_returns. cbn [app].
    destruct (lichess_username e) as [u|]; [|reflexivity].
    destruct (truthy u); [|reflexivity].
    rewrite (Hlast _ _ Hi1 Hn1). cbn [existsb filed_keys].
    now destruct (is_inherited (toLowerCase u)).
Qed.

(** *** What the maps hold *)

Lemma registered_under_snoc (k : string) (entities : list SlackEntity)
    (e : SlackEntity) :
  registered_under k (entities ++ [e]) =
  registered_under k entities ++ (if decide (toUpperCase (id e) = k) then [e] else []).
Proof.
  unfold registered_under. now rewrite filter_app.
Qed.

Lemma under_key_snoc (k key : string) (e : SlackEntity)
    (regs : list (string * SlackEntity)) :
  under_key k (regs ++ [(key, e)]) =
  under_key k regs ++ (if decide (key = k) then [e] else []).
Proof.
  unfold under_key. rewrite filter_app, map_app. f_equal.
  rewrite filter_cons, filter_nil. simpl. now destruct (decide (key = k)).
Qed.

Lemma id_maps_track_empty : id_maps_track [] Lookup.empty.
Proof. intros k. split; reflexivity. Qed.

Lemma name_maps_track_empty : name_maps_track [] Lookup.empty.
Proof. intros k. split; reflexivity. Qed.

Lemma file_id_tracks (entities : list SlackEntity) (e : SlackEntity)
    (s : SlackEntityLookup) :
  id_maps_track entities s ->
  id_maps_track (entities ++ [e]) (file_id (toUpperCase (id e)) e s).
Proof.
  intros Htrack k. set (key := toUpperCase (id e)).
  rewrite registered_under_snoc. fold key. cbn [file_id byId idDuplicates].
  destruct (decide (key = k)) as [<-|Hne].
  - destruct (Htrack key) as [Hprim Hdup]. rewrite !lookup_insert_eq, Hprim, Hdup.
    destruct (registered_under key entities) as [|r rs] eqn:Hreg;
      [split; reflexivity|].
    rewrite last_snoc.
    assert (exists x, last (r :: rs) = Some x) as [x ->].
    { destruct (last (r :: rs)) eqn:El; [eauto|]. now apply last_None in El. }
    split; [reflexivity|]. cbn [default]. now destruct rs.
  - rewrite !lookup_insert_ne by exact Hne. rewrite List.app_nil_r. apply Htrack.
Qed.

Lemma file_name_tracks (regs : list (string * SlackEntity)) (key : string)
    (e : SlackEntity) (s : SlackEntityLookup) :
  name_maps_track regs s ->
  name_maps_track (regs ++ [(key, e)]) (file_name key e s).
Proof.
  intros Htrack k. rewrite under_key_snoc. cbn [file_name byName nameDuplicates].
  destruct (decide (key = k)) as [<-|Hne].
  - destruct (Htrack key) as [Hprim Hdup]. rewrite !lookup_insert_eq, Hprim, Hdup.
    destruct (under_key key regs) as [|r rs] eqn:Hreg; [split; reflexivity|].
    rewrite last_snoc.
    assert (exists x, last (r :: rs) = Some x) as [x ->].
    { destruct (last (r :: rs)) eqn:El; [eauto|]. now apply last_None in El. }
    split; [reflexivity|]. cbn [default]. now destruct rs.
  - rewrite !lookup_insert_ne by exact Hne. rewrite List.app_nil_r. apply Htrack.
Qed.

Lemma fold_file_name_tracks (e : SlackEntity) (keys : list string)
    (entities : list SlackEntity) (regs : list (string * SlackEntity))
    (s : SlackEntityLookup) :
  id_maps_track entities s -> name_maps_track regs s ->
  let s' := fold_left (fun s k => file_name k e s) keys s in
  id_maps_track entities s' /\
  name_maps_track (regs ++ map (fun k => (k, e)) keys) s'.
Proof.
  revert regs s. induction keys as [|k keys IH]; intros regs s Hid Hn.
  - cbn. rewrite List.app_nil_r. now split.
  - cbn [fold_left map].
    replace (regs ++ (k, e) :: map (fun k0 => (k0, e)) keys)
      with ((regs ++ [(k, e)]) ++ map (fun k0 => (k0, e)) keys)
      by (now rewrite <- List.app_assoc).
    apply IH; [exact Hid | now apply file_name_tracks].
Qed.

Lemma name_registrations_snoc (entities : list SlackEntity) (e : SlackEntity) :
  name_registrations (entities ++ [e]) =
  name_registrations entities ++ map (fun k => (k, e)) (filed_keys (name_keys e)).
Proof.
  unfold name_registrations. rewrite flat_map_app. simpl.
  now rewrite List.app_nil_r.
Qed.

Lemma after_add_tracks (entities : list SlackEntity) (e : SlackEntity)
    (s : SlackEntityLookup) :
  id_maps_track entities s ->
  name_maps_track (name_registrations entities) s ->
  id_maps_track (entities ++ [e]) (after_add e s) /\
  name_maps_track (name_registrations (entities ++ [e])) (after_add e s).
Proof.
  intros Hid Hn. unfold after_add. rewrite name_registrations_snoc.
  apply fold_file_name_tracks; [now apply file_id_tracks | exact Hn].
Qed.

Lemma filed_keys_not_inherited (keys : list string) (k : string) :
  k ∈ filed_keys keys -> k ∉ Object_prototype_keys.
Proof.
  induction keys as [|k0 keys IH]; cbn [filed_keys];
    [intros H; now apply not_elem_of_nil in H|].
  destruct (is_inherited k0) eqn:Hk; [intros H; now apply not_elem_of_nil in H|].
  intros [->|H]%elem_of_cons; [now apply is_inherited_false | now apply IH].
Qed.

(** No record is ever filed under a property name of [Object.prototype]. *)
Lemma under_key_inherited (entities : list SlackEntity) (k : string) :
  k ∈ Object_prototype_keys -> under_key k (name_registrations entities) = [].
Proof.
  intros Hk. unfold under_key.
  destruct (filter (fun p => fst p = k) (name_registrations entities))
    as [|p ps] eqn:E; [reflexivity|]. exfalso.
  assert (p ∈ filter (fun p => fst p = k) (name_registrations entities)) as Hp
    by (rewrite E; left).
  apply list_elem_of_filter in Hp as [Hfst Hp].
  unfold name_registrations in Hp. apply list_elem_of_In, in_flat_map in Hp
    as (e & _ & Hp). apply in_map_iff in Hp as (k' & <- & Hk').
  cbn in Hfst. subst k'.
  now apply (filed_keys_not_inherited (name_keys e) k); [apply list_elem_of_In|].
Qed.

Lemma id_maps_track_consistent (entities : list SlackEntity)
    (s : SlackEntityLookup) :
  id_maps_track entities s -> ids_consistent s.
Proof.
  intros Htrack k [x Hx]. destruct (Htrack k) as [Hprim ->].
  rewrite Hprim in Hx.
  destruct (registered_under k entities); [discriminate | eauto].
Qed.

Lemma name_maps_track_consistent (entities : list SlackEntity)
    (s : SlackEntityLookup) :
  name_maps_track (name_registrations entities) s -> names_consistent s.
Proof.
  intros Htrack k. destruct (Htrack k) as [Hprim Hdup]. split.
  - intros [x Hx]. rewrite Hdup. rewrite Hprim in Hx.
    destruct (under_key k (name_registrations entities)); [discriminate | eauto].
  - intros Hk. rewrite Hprim, Hdup, (under_key_inherited entities k Hk).
    now split.
Qed.

(** A sequence of calls keeps the four maps in line with the calls made,
    and logs the warnings of its records. *)
Lemma add_all_tracks (done rest : list SlackEntity) (s : SlackEntityLookup) :
  id_maps_track done s ->
  name_maps_track (name_registrations done) s ->
  fst (add_all rest s) = flat_map add_warning rest /\
  id_maps_track (done ++ rest) (snd (add_all rest s)) /\
  name_maps_track (name_registrations (done ++ rest)) (snd (add_all rest s)).
Proof.
  revert done s. induction rest as [|e rest IH]; intros done s Hid Hn.
  - rewrite List.app_nil_r. now split.
  - cbn [add_all flat_map].
    rewrite (add_spec e s (id_maps_track_consistent _ _ Hid)
               (name_maps_track_consistent _ _ Hn)).
    cbn [fst snd trace].
    destruct (after_add_tracks done e s Hid Hn) as [Hid1 Hn1].
    destruct (IH (done ++ [e]) (after_add e s) Hid1 Hn1) as (Htr & Hid2 & Hn2).
    destruct (add_all rest (after_add e s)) as [tr' s'] eqn:E.
    cbn [fst snd] in *. subst tr'.
    rewrite <- List.app_assoc in Hid2, Hn2. now split.
Qed.

Lemma index_of_tracks (entities : list SlackEntity) :
  add_all entities Lookup.empty = (flat_map add_warning entities, index_of entities) /\
  id_maps_track entities (index_of entities) /\
  name_maps_track (name_registrations entities) (index_of entities).
Proof.
  destruct (add_all_tracks [] entities Lookup.empty
              id_maps_track_empty name_maps_track_empty) as (Htr & Hid & Hn).
  unfold index_of. split; [|now split].
  destruct (add_all entities Lookup.empty) as [tr s]. cbn [fst] in Htr.
  now subst tr.
Qed.

Lemma add_all_app (xs ys : list SlackEntity) (s : SlackEntityLookup) :
  snd (add_all (xs ++ ys) s) = snd (add_all ys (snd (add_all xs s))).
Proof.
  revert s. induction xs as [|x xs IH]; intros s; [reflexivity|].
  cbn [app add_all]. specialize (IH (snd (add x s))).
  destruct (add_all (xs ++ ys) (snd (add x s))) as [tr1 s1].
  destruct (add_all xs (snd (add x s))) as [tr2 s2]. exact IH.
Qed.

Lemma index_of_snoc (entities : list SlackEntity) (e : SlackEntity) :
  index_of (entities ++ [e]) = snd (add e (index_of entities)).
Proof.
  unfold index_of. rewrite add_all_app. cbn [add_all].
  now destruct (add e (snd (add_all entities Lookup.empty))) as [[tr o] s1].
Qed.

(** A call on an index built by [add] calls. *)
Lemma add_index_of (entities : list SlackEntity) (e : SlackEntity) :
  add e (index_of entities)
  = ((add_warning e, add_outcome e), index_of (entities ++ [e])).
Proof.
  destruct (index_of_tracks entities) as (_ & Hid & Hn).
  rewrite index_of_snoc.
  now rewrite (add_spec e _ (id_maps_track_consistent _ _ Hid)
                 (name_maps_track_consistent _ _ Hn)).
Qed.

Lemma getIdDuplicates_index_of (entities : list SlackEntity) (i : string) :
  getIdDuplicates i (index_of entities) = registered_under (toUpperCase i) entities.
Proof.
  destruct (index_of_tracks entities) as (_ & Hid & _).
  unfold getIdDuplicates. destruct (Hid (toUpperCase i)) as [_ ->].
  now destruct (registered_under (toUpperCase i) entities).
Qed.

Example add_twice_same_id :
  let s := index_of [u1_first; u1_second] in
  byId s !! "U1" = Some u1_second /\
  getIdDuplicates "U1" s = [u1_first; u1_second] /\
  idDuplicateCount "u1" s = 2.
Proof. repeat split; vm_compute; reflexivity. Qed.

(** A user called Constructor: the call throws after the id was filed,
    and before the lichess name is. *)
Example add_constructor_throws :
  let c := add u2_constructor (index_of [u1_first]) in
  fst c = ([], Throw nameDuplicates_push_not_a_function) /\
  getIdDuplicates "U2" (snd c) = [u2_constructor] /\
  byName (snd c) !! "carol" = None.
Proof. repeat split; vm_compute; reflexivity. Qed.



End LookupSpec.


(** ** Middleware, league resolution and dispatch *)

Module SlackSpec.
Import JsString JsStringFacts Slack SlackPred.

(** *** requiresModerator *)

Lemma denial_names_league (l : League) : occurs (league_name l) (denial l).
Proof. now exists "You are not a moderator of the ", " league. Your temerity has been logged.". Qed.

Lemma replies_cons (e : Event) (tr : list Event) :
  replies (e :: tr) = if is_Said e then e :: replies tr else replies tr.
Proof. unfold replies. rewrite filter_cons. now destruct (is_Said e). Qed.

Lemma replies_app (tr1 tr2 : list Event) :
  replies (tr1 ++ tr2) = replies tr1 ++ replies tr2.
Proof. apply filter_app. Qed.

Lemma invocations_app (tr1 tr2 : list Event) :
  invocations (tr1 ++ tr2) = invocations tr1 ++ invocations tr2.
Proof. apply filter_app. Qed.

Section WithModules.
Context `{LM : LeagueModule} `{FM : FuzzyModule}.

(** A middleware that throws stops the remaining middleware. *)
Lemma for_each_throw {A B} (xs : list A) (body : A -> Eff B) (x : A)
    (rest : list A) (tr : list Event) (e : JsError) :
  xs = x :: rest -> body x = (tr, Throw e) -> for_each xs body = (tr, Throw e).
Proof. intros -> H. simpl. now rewrite H. Qed.

Lemma inner_handler_returns (error : JsError) :
  outcome (inner_handler error) = Return tt.
Proof. now destruct error. Qed.

Lemma try_catch_inner_returns (c : Eff unit) :
  outcome (try_catch c inner_handler) = Return tt.
Proof.
  destruct c as [tr [[]|e]]; [reflexivity|]. simpl.
  pose proof (inner_handler_returns e) as H.
  destruct (inner_handler e) as [tr' o]. simpl in *. now subst.
Qed.

Lemma try_catch_outer_skipped {A} (c : Eff A) (h : JsError -> Eff A) (a : A) :
  outcome c = Return a -> try_catch c h = c.
Proof. destruct c as [tr [a'|e]]; [reflexivity | discriminate]. Qed.

(** [handleMatch], with its dead outer handler removed. *)
Lemma handleMatch_unfold (bot : SlackBot)
    (listener : SlackRTMEventListenerOptions) (message : CommandMessage) :
  handleMatch bot listener message =
  (do who <- resolve_member bot listener message;
   do r <- getLeague bot message false;
   after_resolution bot listener (fst r) (snd r) who).
Proof.
  unfold handleMatch, resolve_member. rewrite bind_assoc.
  apply bind_ext; intros _. apply bind_ext; intros who.
  apply bind_ext; intros [m lg]. cbn [fst snd].
  exact (try_catch_outer_skipped _ _ tt (try_catch_inner_returns _)).
Qed.

Lemma requiresModerator_denies (bot : SlackBot) (message : CommandMessage)
    (l : League) :
  league message = Some l -> isModerator message <> Some true ->
  requiresModerator bot message =
    ([Said (Some (channel_id (channel message))) (denial l)],
     Throw (StopControllerError "Not a moderator.")).
Proof.
  intros Hl Hmod. unfold requiresModerator, not_isModerator. rewrite Hl.
  destruct (isModerator message) as [[]|]; [congruence|reflexivity..].
Qed.

Lemma spread_member_fields (who : option (Property SlackEntity)) (message : CommandMessage) :
  league (spread_member who message) = league message /\
  isModerator (spread_member who message) = isModerator message /\
  channel (spread_member who message) = channel message.
Proof. unfold spread_member. now destruct (member message). Qed.

(** The middleware gate inside the dispatcher: a listener whose first
    middleware is [requiresModerator], run on a message that fails it. *)
Lemma after_resolution_denied (bot : SlackBot)
    (listener : SlackRTMEventListenerOptions) (rest : list MiddlewareFn)
    (message : CommandMessage) (l : League) (who : Property SlackEntity) :
  middleware listener = Some (requiresModerator :: rest) ->
  league message = Some l -> isModerator message <> Some true ->
  let r := after_resolution bot listener message (Some l) (Some who) in
  replies (trace r) = [Said (Some (channel_id (channel message))) (denial l)] /\
  invocations (trace r) = [] /\ outcome r = Return tt.
Proof.
  intros Hmw Hl Hmod.
  unfold after_resolution, dispatch, run_middleware, allowedTypes, allows.
  rewrite Hmw. cbn [for_each].
  set (pinged := set_isPingModerator _ message).
  destruct (spread_member_fields (Some who) pinged) as (Hsl & Hsm & Hsc).
  destruct (type listener) eqn:Hty; cbn [bool_decide decide_rel andb].
  - rewrite (requiresModerator_denies bot (spread_member (Some who) pinged) l)
      by (rewrite ?Hsl, ?Hsm; assumption).
    rewrite Hsc. simpl. now repeat split.
  - rewrite (requiresModerator_denies bot pinged l) by assumption.
    simpl. now repeat split.
Qed.

(** The middleware on its own reads the [isModerator] flag of the
    message.  With a league and without the flag set, it sends exactly
    one reply, the denial naming the league, and then throws
    [StopControllerError] (so that the dispatcher, whatever the listener
    kind, does not invoke the callback and sends nothing else); without
    a league it throws a plain [Error]; with the flag set it returns the
    message and sends nothing. *)
Lemma requiresModerator_gate (bot : SlackBot) (message : CommandMessage) :
  (forall l, league message = Some l -> isModerator message <> Some true ->
     requiresModerator bot message =
       ([Said (Some (channel_id (channel message))) (denial l)],
        Throw (StopControllerError "Not a moderator.")) /\
     occurs (league_name l) (denial l) /\
     forall listener rest who,
       middleware listener = Some (requiresModerator :: rest) ->
       let r := after_resolution bot listener message (Some l) (Some who) in
       replies (trace r) = [Said (Some (channel_id (channel message))) (denial l)] /\
       invocations (trace r) = [] /\ outcome r = Return tt) /\
  (league message = None ->
     exists reason,
       requiresModerator bot message = ([], Throw (Error reason)) /\
       instanceof_StopControllerError (Error reason) = false) /\
  (forall l, league message = Some l -> isModerator message = Some true ->
     requiresModerator bot message = ([], Return message)).
Proof.
  split; [|split].
  - intros l Hl Hmod. split; [|split].
    + now apply requiresModerator_denies.
    + apply denial_names_league.
    + intros listener rest who Hmw. now apply after_resolution_denied with (rest := rest).
  - intros Hl. eexists. unfold requiresModerator. rewrite Hl. split; reflexivity.
  - intros l Hl Hmod. unfold requiresModerator, not_isModerator.
    now rewrite Hl, Hmod.
Qed.

(** *** getLeague *)

Section Tiers.
Variable bot : SlackBot.
(** The registry finds no league for an undefined name, nor for the
    empty name. *)
Hypothesis getLeague_undefined : league_getLeague bot None = None.
Hypothesis getLeague_empty : league_getLeague bot (Some EmptyString) = None.

Lemma tier1_eq (message : CommandMessage) :
  (if Lookup.truthy_opt (channel_name (channel message)) then
     match channel_name (channel message) with
     | Some n => league_getLeague bot (channelMap bot !! n)
     | None => None
     end
   else None) = name_binding bot message.
Proof.
  unfold name_binding, bound_league, Lookup.truthy_opt.
  destruct (channel_name (channel message)) as [n|]; [|reflexivity].
  destruct (truthy n); [|reflexivity].
  now destruct (channelMap bot !! n).
Qed.

Lemma tier2_eq (message : CommandMessage) :
  (if truthy (channel_id (channel message)) then
     if Lookup.truthy_opt (channelMap bot !! channel_id (channel message))
     then league_getLeague bot (channelMap bot !! channel_id (channel message))
     else None
   else None) = id_binding bot message.
Proof.
  unfold id_binding, bound_league, Lookup.truthy_opt.
  destruct (truthy (channel_id (channel message))); [|reflexivity].
  destruct (channelMap bot !! channel_id (channel message)) as [target|];
    [|reflexivity].
  destruct target; [now rewrite getLeague_empty | reflexivity].
Qed.

Lemma getLeague_by_tiers (message : CommandMessage) (channelOnly : bool) :
  getLeague bot message channelOnly =
  match name_binding bot message with
  | Some l => ret (set_league (Some l) message, Some l)
  | None =>
      match id_binding bot message with
      | Some l => ret (set_league (Some l) message, Some l)
      | None =>
          if channelOnly then ret (set_league None message, None)
          else text_tier bot message
      end
  end.
Proof.
  unfold getLeague.
  change (channel (set_league None message)) with (channel message).
  rewrite tier1_eq. destruct (name_binding bot message); [reflexivity|].
  rewrite tier2_eq. destruct (id_binding bot message); [reflexivity|].
  destruct channelOnly; [reflexivity|]. cbn [negb]. unfold text_tier.
  apply bind_ext. now intros [l|].
Qed.

(** C3: league resolution is a three-tier fallback.  A bound channel
    name decides; otherwise a bound channel id decides; only otherwise,
    and only when free-text lookup is permitted, is the text consulted.
    In the first two tiers the result is the same whatever the text. *)
Theorem getLeague_tiers (message : CommandMessage) (channelOnly : bool) :
  (forall l, name_binding bot message = Some l ->
     getLeague bot message channelOnly = ret (set_league (Some l) message, Some l)) /\
  (forall l, name_binding bot message = None -> id_binding bot message = Some l ->
     getLeague bot message channelOnly = ret (set_league (Some l) message, Some l)) /\
  (name_binding bot message = None -> id_binding bot message = None ->
     getLeague bot message true = ret (set_league None message, None) /\
     getLeague bot message false = text_tier bot message) /\
  (forall l body,
     name_binding bot message = Some l \/
     (name_binding bot message = None /\ id_binding bot message = Some l) ->
     getLeague bot (with_text body message) channelOnly =
       ret (set_league (Some l) (with_text body message), Some l)).
Proof.
  split; [|split; [|split]].
  - intros l H. now rewrite getLeague_by_tiers, H.
  - intros l H1 H2. now rewrite getLeague_by_tiers, H1, H2.
  - intros H1 H2. split; now rewrite getLeague_by_tiers, H1, H2.
  - intros l body H. rewrite getLeague_by_tiers.
    change (name_binding bot (with_text body message))
      with (name_binding bot message).
    change (id_binding bot (with_text body message))
      with (id_binding bot message).
    destruct H as [-> | [-> ->]]; reflexivity.
Qed.

End Tiers.

(** *** findLeagueByMessageText *)

Lemma possibleLeagues_loop_known (t2l : gmap string League)
    (best : list FuzzyResult) (acc : gmap string League) :
  Forall (fun r => is_Some (t2l !! value r)) best ->
  possibleLeagues_loop t2l best acc =
  ret (enter_leagues (omap (fun r => t2l !! value r) best) acc).
Proof.
  intros Hknown. revert acc.
  induction Hknown as [|r best [l Hl] _ IH]; intros acc; [reflexivity|].
  cbn [possibleLeagues_loop]. rewrite Hl, IH. unfold enter_leagues.
  change (omap (fun r0 => t2l !! value r0) (r :: best))
    with (match t2l !! value r with
          | Some y => y :: omap (fun r0 => t2l !! value r0) best
          | None => omap (fun r0 => t2l !! value r0) best
          end).
  now rewrite Hl.
Qed.





Section Ambiguity.
Variable bot : SlackBot.
Hypothesis getLeague_undefined : league_getLeague bot None = None.
Hypothesis getLeague_empty : league_getLeague bot (Some EmptyString) = None.



End Ambiguity.

(** *** handleMatch: the gates and the failure boundary *)

(** A league command whose league or member is missing: nothing runs,
    and nothing at all is logged by the dispatch, the warning included. *)
Lemma after_resolution_league_command_unresolved (bot : SlackBot)
    (listener : SlackRTMEventListenerOptions) (message : CommandMessage)
    (_league : option League) (who : option (Property SlackEntity)) :
  type listener = league_command -> _league = None \/ who = None ->
  after_resolution bot listener message _league who = ret tt.
Proof.
  intros Hty Hmiss. unfold after_resolution, dispatch. rewrite Hty.
  destruct Hmiss as [-> | ->]; [|destruct _league]; reflexivity.
Qed.

(** The warning of the league branch is unreachable: the branch is
    entered only when [allowedTypes] lists [league_command], that is
    when both the league and the member are there. *)
Lemma league_branch_has_both (_league : option League) (who : option (Property SlackEntity)) :
  allows (allowedTypes _league who) league_command = true ->
  is_Some _league /\ is_Some who.
Proof. destruct _league, who; simpl; try discriminate; eauto. Qed.

(** A plain command runs whatever was resolved. *)
Lemma after_resolution_command_runs (bot : SlackBot)
    (listener : SlackRTMEventListenerOptions) (message : CommandMessage)
    (_league : option League) (who : option (Property SlackEntity)) :
  type listener = command -> middleware listener = None ->
  let m := spread_member who
             (set_isPingModerator (pingModerator bot message who) message) in
  exists tr,
    trace (after_resolution bot listener message _league who) =
      Logged info ("Executing command callback for pattern: "
                   +:+ pattern_sources listener)
      :: Invoked m :: trace (callback listener bot m) ++ tr.
Proof.
  intros Hty Hmw m. unfold after_resolution, dispatch, run_middleware.
  rewrite Hty, Hmw.
  assert (allows (allowedTypes _league who) command = true) as ->
    by (destruct _league, who; reflexivity).
  cbn [bool_decide decide_rel andb]. fold m.
  destruct (callback listener bot m) as [tr [[]|e]]; simpl.
  - now eexists.
  - destruct e as [reason|reason]; simpl; now eexists.
Qed.

(** A callback that throws: the dispatcher returns normally and adds no
    reply of its own; the only replies are those the callback had sent. *)
Lemma after_resolution_callback_throws (bot : SlackBot)
    (listener : SlackRTMEventListenerOptions) (message : CommandMessage)
    (_league : option League) (who : option (Property SlackEntity))
    (tr : list Event) (e : JsError) :
  type listener = command -> middleware listener = None ->
  callback listener bot
    (spread_member who
       (set_isPingModerator (pingModerator bot message who) message))
    = (tr, Throw e) ->
  let r := after_resolution bot listener message _league who in
  outcome r = Return tt /\
  replies (trace r) = replies tr /\
  Logged LogLevel_error ("Error in command execution: " +:+ error_message e)
    ∈ trace r.
Proof.
  intros Hty Hmw Hcb. unfold after_resolution, dispatch, run_middleware.
  rewrite Hty, Hmw.
  assert (allows (allowedTypes _league who) command = true) as ->
    by (destruct _league, who; reflexivity).
  cbn [bool_decide decide_rel andb]. rewrite Hcb.
  destruct e as [reason|reason]; simpl;
    rewrite !replies_cons, replies_app; simpl; rewrite app_nil_r;
    (split; [reflexivity|]); (split; [reflexivity|]);
    apply elem_of_cons; right; apply elem_of_cons; right;
    apply elem_of_app; right; apply elem_of_cons; now left.
Qed.

(** League resolution itself logs and sends nothing. *)
Lemma possibleLeagues_loop_silent (t2l : gmap string League)
    (best : list FuzzyResult) (acc : gmap string League) :
  trace (possibleLeagues_loop t2l best acc) = [].
Proof.
  revert acc. induction best as [|r best IH]; intros acc; [reflexivity|].
  cbn [possibleLeagues_loop]. destruct (t2l !! value r); [apply IH | reflexivity].
Qed.

Lemma findLeagueByMessageText_silent (bot : SlackBot) (message : CommandMessage) :
  trace (findLeagueByMessageText bot message) = [].
Proof.
  unfold findLeagueByMessageText. rewrite trace_bind, possibleLeagues_loop_silent.
  destruct (outcome _) as [possible|e]; [|reflexivity].
  now destruct (map_to_list possible) as [|[k l] [|kl rest]].
Qed.

Lemma getLeague_silent (bot : SlackBot) (message : CommandMessage)
    (channelOnly : bool) :
  trace (getLeague bot message channelOnly) = [].
Proof.
  unfold getLeague.
  repeat match goal with
         | |- context [match ?x with Some _ => _ | None => _ end] =>
             lazymatch x with
             | context [match _ with Some _ => _ | None => _ end] => fail
             | _ => destruct x eqn:?
             end
         | |- context [if ?b then _ else _] => destruct b eqn:?
         end; try reflexivity;
    rewrite trace_bind, findLeagueByMessageText_silent;
    destruct (outcome _) as [[l|]|e]; reflexivity.
Qed.

Lemma resolve_member_outcome (bot : SlackBot)
    (listener : SlackRTMEventListenerOptions) (message : CommandMessage) :
  outcome (resolve_member bot listener message)
    = Return (acting_member bot message) /\
  replies (trace (resolve_member bot listener message)) = [] /\
  invocations (trace (resolve_member bot listener message)) = [] /\
  logged_at warn (trace (resolve_member bot listener message)) = [].
Proof.
  unfold resolve_member, acting_member.
  destruct (truthy (user message)); now repeat split.
Qed.

(** Once the league is resolved (or found missing) without an error,
    [handleMatch] returns normally whatever the listener does. *)
Lemma handleMatch_contained (bot : SlackBot)
    (listener : SlackRTMEventListenerOptions) (message : CommandMessage)
    (r : CommandMessage * option League) :
  outcome (getLeague bot message false) = Return r ->
  outcome (handleMatch bot listener message) = Return tt.
Proof.
  intros Hr. rewrite handleMatch_unfold.
  destruct (resolve_member_outcome bot listener message) as (Hm & _).
  destruct (resolve_member bot listener message) as [tr1 o1]. simpl in Hm. subst o1.
  destruct (getLeague bot message false) as [tr2 o2]. simpl in Hr. subst o2.
  simpl. pose proof (try_catch_inner_returns
                       (dispatch bot listener
                          (set_isPingModerator
                             (pingModerator bot (fst r) (acting_member bot message))
                             (fst r))
                          (snd r) (acting_member bot message)
                          (allowedTypes (snd r) (acting_member bot message)))) as H.
  unfold after_resolution.
  destruct (try_catch _ inner_handler) as [tr3 o3]. exact H.
Qed.

(** A league command whose league or member did not resolve: the trace
    of [handleMatch] is that of its first steps, the two entry lines. No
    warning is logged, nothing is sent, the callback is not invoked. *)
Lemma handleMatch_league_command_unresolved (bot : SlackBot)
    (listener : SlackRTMEventListenerOptions) (message : CommandMessage)
    (r : CommandMessage * option League) :
  type listener = league_command ->
  outcome (getLeague bot message false) = Return r ->
  snd r = None \/ acting_member bot message = None ->
  handleMatch bot listener message
    = (trace (resolve_member bot listener message), Return tt) /\
  logged_at warn (trace (handleMatch bot listener message)) = [] /\
  replies (trace (handleMatch bot listener message)) = [] /\
  invocations (trace (handleMatch bot listener message)) = [].
Proof.
  intros Hty Hr Hmiss.
  destruct (resolve_member_outcome bot listener message) as (Hm & Hrep & Hinv & Hwarn).
  assert (handleMatch bot listener message
          = (trace (resolve_member bot listener message), Return tt)) as E.
  { rewrite handleMatch_unfold.
    pose proof (getLeague_silent bot message false) as Hsilent.
    destruct (resolve_member bot listener message) as [tr1 o1]. simpl in Hm. subst o1.
    destruct (getLeague bot message false) as [tr2 o2]. simpl in Hr, Hsilent.
    subst o2 tr2. cbn [bind trace fst].
    rewrite (after_resolution_league_command_unresolved _ _ _ _ _ Hty Hmiss).
    simpl. now rewrite !app_nil_r. }
  rewrite E. simpl. now repeat split.
Qed.

(** When [getLeague] returns, the message it returns is the one it was
    given with the league it found assigned. *)
Lemma getLeague_returned (bot : SlackBot) (message : CommandMessage)
    (channelOnly : bool) (r : CommandMessage * option League) :
  outcome (getLeague bot message channelOnly) = Return r ->
  fst r = set_league (snd r) message.
Proof.
  unfold getLeague.
  repeat match goal with
         | |- context [match ?x with Some _ => _ | None => _ end] =>
             lazymatch x with
             | context [match _ with Some _ => _ | None => _ end] => fail
             | _ => destruct x eqn:?
             end
         | |- context [if ?b then _ else _] => destruct b eqn:?
         end;
    try (intros [= <-]; reflexivity);
    destruct (findLeagueByMessageText bot (set_league None message))
      as [tr [[l|]|e]]; cbn; intros [= <-]; reflexivity.
Qed.

(** [handleMatch] after a league resolution that returned. *)
Lemma handleMatch_after (bot : SlackBot)
    (listener : SlackRTMEventListenerOptions) (message : CommandMessage)
    (r : CommandMessage * option League) :
  outcome (getLeague bot message false) = Return r ->
  handleMatch bot listener message =
  (trace (resolve_member bot listener message)
   ++ trace (after_resolution bot listener (fst r) (snd r)
               (acting_member bot message)),
   outcome (after_resolution bot listener (fst r) (snd r)
              (acting_member bot message))).
Proof.
  intros Hl. rewrite handleMatch_unfold.
  pose proof (getLeague_silent bot message false) as Hsilent.
  destruct (resolve_member_outcome bot listener message) as (Hm & _).
  destruct (resolve_member bot listener message) as [tr1 o1]. simpl in Hm.
  subst o1. destruct (getLeague bot message false) as [tr2 o2].
  simpl in Hl, Hsilent. subst o2 tr2. cbn [bind fst snd trace].
  now destruct (after_resolution _ _ _ _ _) as [tr3 o3].
Qed.

(** The moderator gate as [handleMatch] runs it.  The middleware is
    called before [isModerator] is computed, and for a plain command it
    never is: a message that enters without the flag, as the messages
    the event handlers build do, is denied whenever the league and the
    sender resolve, whether or not the sender is a moderator of the
    league. *)
Lemma handleMatch_denies (bot : SlackBot)
    (listener : SlackRTMEventListenerOptions) (rest : list MiddlewareFn)
    (message : CommandMessage) (r : CommandMessage * option League)
    (l : League) (who : Property SlackEntity) :
  middleware listener = Some (requiresModerator :: rest) ->
  isModerator message <> Some true ->
  outcome (getLeague bot message false) = Return r -> snd r = Some l ->
  acting_member bot message = Some who ->
  let hm := handleMatch bot listener message in
  replies (trace hm) = [Said (Some (channel_id (channel message))) (denial l)] /\
  invocations (trace hm) = [] /\ outcome hm = Return tt.
Proof.
  intros Hmw Hmod Hr Hl Hwho hm. subst hm.
  pose proof (getLeague_returned bot message false r Hr) as Hfst.
  rewrite (handleMatch_after bot listener message r Hr), Hwho, Hl, Hfst, Hl.
  cbn [trace outcome fst snd].
  destruct (resolve_member_outcome bot listener message) as (_ & Hrep & Hinv & _).
  destruct (after_resolution_denied bot listener rest
              (set_league (Some l) message) l who Hmw eq_refl Hmod)
    as (Hrep' & Hinv' & Hout).
  rewrite replies_app, invocations_app, Hrep, Hinv, Hrep', Hinv'.
  now repeat split.
Qed.

End WithModules.

(** *** Concrete runs *)

Import Reference.

(** A denied non-moderator: one reply naming the league, no callback. *)
Lemma requiresModerator_gate_witness :
  let m := set_isModerator (Some false)
             (set_league (Some league_4545)
                (message_in dev_testing "U0200GLBERT" "pairings")) in
  requiresModerator test_bot m =
    ([Said (Some "C0DEVTEST")
        "You are not a moderator of the 45+45 league. Your temerity has been logged."],
     Throw (StopControllerError "Not a moderator.")).
Proof.
  intros m.
  destruct (requiresModerator_gate (LM := test_LM) test_bot m)
    as [H _].
  destruct (H league_4545) as [E _]; [reflexivity | discriminate | exact E].
Defined.

(** The private lonewolf channel is bound by id: the league is lonewolf
    although the text names 45+45. *)
Lemma getLeague_tiers_witness :
  getLeague (LM := test_LM) (FM := spec_fuzzy) test_bot
    (message_in lonewolf_games_private "U0164C6FXLK" "45+45 pairings") false
  = ret (set_league (Some league_lonewolf)
           (message_in lonewolf_games_private "U0164C6FXLK" "45+45 pairings"),
         Some league_lonewolf).
Proof.
  destruct (getLeague_tiers (LM := test_LM) (FM := spec_fuzzy) test_bot
              eq_refl eq_refl
              (message_in lonewolf_games_private "U0164C6FXLK" "45+45 pairings")
              false) as (_ & H & _).
  apply H; reflexivity.
Defined.




(** A text naming one league resolves to it; with no league configured
    the text resolves to nothing. *)
Example text_names_one_league :
  findLeagueByMessageText (LM := test_LM) (FM := spec_fuzzy) test_bot
    (message_in general "U0164C6FXLK" "lonewolf pairings")
  = ret (Some league_lonewolf).
Proof. vm_compute. reflexivity. Qed.

Example text_without_leagues :
  findLeagueByMessageText (LM := registry []) (FM := spec_fuzzy) test_bot
    (message_in general "U0164C6FXLK" "lonewolf pairings")
  = ret None.
Proof. vm_compute. reflexivity. Qed.

(** C7: the sender is lakinwecker, a moderator of the 45+45 league, in a
    channel bound to that league, and the listener is guarded by
    [requiresModerator].  [handleMatch] runs the middleware before it
    computes [isModerator] (for a league command) or without ever
    computing it (for a plain command), so the middleware sees no flag:
    the moderator gets the denial and the callback is not invoked.  Only
    on a message that already carries the flag does the middleware
    return the message without a reply. *)
Theorem moderator_is_denied :
  let m := message_in dev_testing "U0164C6FXLK" "pairings" in
  let r := handleMatch (LM := test_LM) (FM := spec_fuzzy) test_bot
             (replying_listener league_command (Some [requiresModerator])) m in
  let r' := handleMatch (LM := test_LM) (FM := spec_fuzzy) test_bot
              (replying_listener command (Some [requiresModerator])) m in
  let flagged := set_isModerator (Some true) (set_league (Some league_4545) m) in
  Lookup.getByNameOrID "U0164C6FXLK" (users test_bot) = Some (Own lakin) /\
  outcome (getLeague (LM := test_LM) (FM := spec_fuzzy) test_bot m false)
    = Return (set_league (Some league_4545) m, Some league_4545) /\
  League_isModerator (LeagueModule := test_LM) league_4545
    (lichess_username lakin) = true /\
  replies (trace r) =
    [Said (Some "C0DEVTEST")
       "You are not a moderator of the 45+45 league. Your temerity has been logged."] /\
  invocations (trace r) = [] /\ outcome r = Return tt /\
  replies (trace r') =
    [Said (Some "C0DEVTEST")
       "You are not a moderator of the 45+45 league. Your temerity has been logged."] /\
  invocations (trace r') = [] /\ outcome r' = Return tt /\
  requiresModerator test_bot flagged = ret flagged.
Proof. vm_compute. repeat split. Qed.

(** C5: a league command from a user the index does not know, in a
    channel bound to a league.  The callback is not invoked and no reply
    is sent, but no warning is logged either: the trace holds the two
    entry lines only.  The plain command runs on the same message. *)
Theorem league_command_without_member_logs_no_warning :
  let m := message_in dev_testing "U404" "pairings" in
  let r := handleMatch (LM := test_LM) (FM := spec_fuzzy) test_bot
             (replying_listener league_command None) m in
  let r' := handleMatch (LM := test_LM) (FM := spec_fuzzy) test_bot
              (replying_listener command None) m in
  Lookup.getByNameOrID "U404" (users test_bot) = None /\
  outcome r = Return tt /\
  invocations (trace r) = [] /\ replies (trace r) = [] /\
  logged_at warn (trace r) = [] /\
  trace r =
    [Logged info "handleMatch called with pattern: ^pairings$ and message: pairings";
     Logged info "Handle match found user: UNDEFINED for ID: U404"] /\
  length (invocations (trace r')) = 1 /\
  replies (trace r') = [Said (Some "C0DEVTEST") "Here are the pairings."].
Proof. vm_compute. repeat split. Qed.

(** C6: a plain command whose callback throws.  [handleMatch] catches
    and logs the error and returns, but sends no reply; the apology of
    its outer handler is never sent.  [processChessterMessage], on the
    same failure, logs and replies. *)
Theorem throwing_callback_gets_no_reply :
  let m := message_in dev_testing "U0164C6FXLK" "pairings" in
  let r := handleMatch (LM := test_LM) (FM := spec_fuzzy) test_bot
             (throwing_listener command) m in
  let r' := Utils.processChessterMessage "pairings" "U0164C6FXLK" dev_testing
              "1234567890.123456" None false [utils_throwing_listener] in
  outcome r = Return tt /\
  length (invocations (trace r)) = 1 /\
  logged_at LogLevel_error (trace r) =
    [Logged LogLevel_error "Error in command execution: boom"] /\
  replies (trace r) = [] /\
  outcome r' = Return tt /\
  length (invocations (trace r')) = 1 /\
  logged_at LogLevel_error (trace r') =
    [Logged LogLevel_error "Error processing message: Error: boom"] /\
  replies (trace r') =
    [Said None
       "Error processing message. Its probably MrScribbles' fault. :sexy-glbert:"].
Proof. vm_compute. repeat split. Qed.

End SlackSpec.

(** ** More on chessterUtils.ts *)

Module UtilsMore.
Import JsString JsStringFacts Utils UtilsPred MorePred.

Lemma try_catch_returns {A} (c : Eff A) (h : JsError -> Eff A) (a : A) :
  (forall e, outcome (h e) = Return a) ->
  (forall a', outcome c = Return a' -> a' = a) ->
  outcome (try_catch c h) = Return a.
Proof.
  intros Hh Hc. destruct c as [tr [a'|e]]; simpl.
  - f_equal. now apply Hc.
  - specialize (Hh e). destruct (h e) as [tr' o]. exact Hh.
Qed.

(** [processChessterMessage] as its entry line followed by the delivery
    to the first matching listener, inside the [try]. *)
Lemma processChessterMessage_eq (text user : string) (channel : SlackChannel)
    (ts : string) (botUserId : option string) (isDirectMention : bool)
    (listeners : list SlackEventListenerOptions) :
  processChessterMessage text user channel ts botUserId isDirectMention listeners =
  try_catch
    (run emit (processing_line text channel botUserId isDirectMention);
     match findMatchingListener listeners
             (normalizedText text botUserId isDirectMention)
             (determineMessageContext (Some channel) isDirectMention) with
     | Some (listener, found) =>
         deliver listener
           (commandMessage text user channel ts botUserId isDirectMention found)
     | None => ret tt
     end)
    (fun e => (failure_events e, Return tt)).
Proof.
  reflexivity.
Qed.

(** X1: The failure boundary of [processChessterMessage]: it returns
    normally whatever the middleware and the callback do, and when the
    delivery to the matched listener throws, what it adds after the
    events of the delivery is one error line and one reply. *)
Theorem processChessterMessage_failure_boundary (text user : string)
    (channel : SlackChannel) (ts : string) (botUserId : option string)
    (isDirectMention : bool) (listeners : list SlackEventListenerOptions) :
  let r := processChessterMessage text user channel ts botUserId
             isDirectMention listeners in
  outcome r = Return tt /\
  forall listener found tr e,
    findMatchingListener listeners
      (normalizedText text botUserId isDirectMention)
      (determineMessageContext (Some channel) isDirectMention)
      = Some (listener, found) ->
    (deliver listener
       (commandMessage text user channel ts botUserId isDirectMention found)
       = (tr, Throw e) ->
     trace r = processing_line text channel botUserId isDirectMention
               :: tr ++ failure_events e) /\
    (applyMiddleware
       (commandMessage text user channel ts botUserId isDirectMention found)
       (Utils.middleware listener) = (tr, Throw e) ->
     trace r = processing_line text channel botUserId isDirectMention
               :: tr ++ failure_events e).
Proof.
  intros r. subst r. rewrite processChessterMessage_eq. split.
  - apply try_catch_returns; [reflexivity | now intros []].
  - intros listener found tr e Hfound. rewrite Hfound. split.
    + intros Hthrow. rewrite Hthrow. reflexivity.
    + intros Hthrow. unfold deliver. rewrite Hthrow. reflexivity.
Qed.

Lemma processChessterMessage_failure_boundary_witness :
  trace (processChessterMessage "pairings" "U0164C6FXLK" Reference.dev_testing
           "1234567890.123456" None false [Reference.utils_throwing_listener]) =
  [processing_line "pairings" Reference.dev_testing None false;
   Invoked (commandMessage "pairings" "U0164C6FXLK" Reference.dev_testing
              "1234567890.123456" None false [Some "pairings"])]
  ++ failure_events (Error "boom").
Proof.
  destruct (processChessterMessage_failure_boundary "pairings" "U0164C6FXLK"
              Reference.dev_testing "1234567890.123456" None false
              [Reference.utils_throwing_listener]) as [_ H].
  destruct (H Reference.utils_throwing_listener [Some "pairings"]
              [Invoked (commandMessage "pairings" "U0164C6FXLK" Reference.dev_testing
                          "1234567890.123456" None false [Some "pairings"])]
              (Error "boom") eq_refl) as [H1 _].
  exact (H1 eq_refl).
Defined.

(** X2: Delivery: without a matching listener [processChessterMessage] only
    logs its entry line; with one, whose middleware and callback return,
    the callback is entered once, on the message the middleware made of
    the trimmed text and the match, and nothing is added after it. *)
Theorem processChessterMessage_delivery (text user : string)
    (channel : SlackChannel) (ts : string) (botUserId : option string)
    (isDirectMention : bool) (listeners : list SlackEventListenerOptions) :
  let r := processChessterMessage text user channel ts botUserId
             isDirectMention listeners in
  match findMatchingListener listeners
          (normalizedText text botUserId isDirectMention)
          (determineMessageContext (Some channel) isDirectMention) with
  | None => r = ([processing_line text channel botUserId isDirectMention], Return tt)
  | Some (listener, found) =>
      let cm := commandMessage text user channel ts botUserId isDirectMention found in
      forall tr1 processed tr2,
        applyMiddleware cm (Utils.middleware listener) = (tr1, Return processed) ->
        Utils.callback listener processed = (tr2, Return tt) ->
        r = (processing_line text channel botUserId isDirectMention
             :: tr1 ++ Invoked processed :: tr2, Return tt)
  end.
Proof.
  intros r. subst r. rewrite processChessterMessage_eq.
  destruct (findMatchingListener _ _ _) as [[listener found]|]; [|reflexivity].
  intros cm tr1 processed tr2 Hmw Hcb. unfold deliver. fold cm.
  rewrite Hmw. simpl. rewrite Hcb. reflexivity.
Qed.

Lemma processChessterMessage_delivery_witness :
  processChessterMessage "hello there" "U12345" channel_D12345
    "1234567890.123456" None false [multiMatchListener "1"; multiMatchListener "2"]
  = ([processing_line "hello there" channel_D12345 None false;
      Invoked (commandMessage "hello there" "U12345" channel_D12345
                 "1234567890.123456" None false [Some "hello"]);
      Logged debug "1"], Return tt).
Proof.
  exact (processChessterMessage_delivery "hello there" "U12345" channel_D12345
           "1234567890.123456" None false
           [multiMatchListener "1"; multiMatchListener "2"]
           [] _ [Logged debug "1"] eq_refl eq_refl).
Defined.

(** The listener [findMatchingListener] returns is one it wanted. *)
Lemma findMatchingListener_wanted (listeners : list SlackEventListenerOptions)
    (text : string) (c : ContextFlags) (l : SlackEventListenerOptions)
    (m : RegExpMatchArray) :
  findMatchingListener listeners text c = Some (l, m) ->
  doesListenerWantMessageType l c = true.
Proof.
  induction listeners as [|l1 ls IH]; simpl; [discriminate|].
  destruct (doesListenerWantMessageType l1 c) eqn:Hw; simpl; [|exact IH].
  destruct (first_matching_pattern text (patterns l1)); [|exact IH].
  now intros [= -> _].
Qed.

(** X3: Through [determineMessageContext] a listener is wanted for a mention
    when it lists [direct_mention], for an IM channel that is not a
    group when it lists [direct_message], and otherwise only when it
    lists [ambient]; listing [bot_message] never makes a listener
    wanted, so the listener that [findMatchingListener] returns always
    lists another category. *)
Theorem bot_message_never_wanted (listeners : list SlackEventListenerOptions)
    (text : string) (channel : option SlackChannel) (isDirectMention : bool) :
  (forall l,
     doesListenerWantMessageType l (determineMessageContext channel isDirectMention)
     = (is_direct_channel channel && Utils.includes (messageTypes l) direct_message)
       || (isDirectMention && Utils.includes (messageTypes l) direct_mention)
       || (negb isDirectMention && negb (is_direct_channel channel)
           && Utils.includes (messageTypes l) ambient)) /\
  match findMatchingListener listeners text
          (determineMessageContext channel isDirectMention) with
  | Some (l, _) => exists t, t ∈ messageTypes l /\ t <> bot_message
  | None => True
  end.
Proof.
  split.
  - intros l. unfold doesListenerWantMessageType, determineMessageContext,
      is_direct_channel. simpl.
    destruct (flag_or_false channel is_im && negb (flag_or_false channel is_group)),
      isDirectMention,
      (Utils.includes (messageTypes l) direct_message),
      (Utils.includes (messageTypes l) direct_mention),
      (Utils.includes (messageTypes l) ambient); reflexivity.
  - destruct (findMatchingListener _ _ _) as [[l m]|] eqn:E; [|exact I].
    apply findMatchingListener_wanted, UtilsSpec.doesListenerWantMessageType_iff in E.
    destruct E as (t & Hflag & Hin).
    exists t. split; [exact Hin|]. intros ->. simpl in Hflag. discriminate.
Qed.

(** X4: [applyMiddleware] over a concatenation runs the first list and then
    the second on its result; once a middleware has thrown, the rest is
    not run and the error is the outcome. *)
Theorem applyMiddleware_app (m : CommandMessage)
    (fns1 fns2 : list (CommandMessage -> Eff CommandMessage)) :
  applyMiddleware m (Some (fns1 ++ fns2)) =
    bind (applyMiddleware m (Some fns1)) (fun m' => applyMiddleware m' (Some fns2)) /\
  forall tr e,
    applyMiddleware m (Some fns1) = (tr, Throw e) ->
    applyMiddleware m (Some (fns1 ++ fns2)) = (tr, Throw e).
Proof.
  assert (forall fns x, applyMiddleware x (Some fns) = middleware_loop fns x) as Hloop.
  { intros [|fn fns] x; reflexivity. }
  assert (applyMiddleware m (Some (fns1 ++ fns2)) =
          bind (applyMiddleware m (Some fns1))
               (fun m' => applyMiddleware m' (Some fns2))) as E.
  { rewrite !Hloop.
    rewrite (bind_ext _ _ (middleware_loop fns2)) by (intros x; apply Hloop).
    revert m. induction fns1 as [|fn fns1 IH]; intros m.
    - cbn [app middleware_loop]. now rewrite bind_ret_l.
    - cbn [app middleware_loop]. rewrite bind_assoc. apply bind_ext.
      intros x. apply IH. }
  split; [exact E|]. intros tr e H. rewrite E, H. reflexivity.
Qed.

Lemma applyMiddleware_app_witness :
  applyMiddleware sampleMessage
    (Some ([fun _ => throw (Error "stop")] ++ [pure_transform upper_text]))
  = ([], Throw (Error "stop")).
Proof.
  destruct (applyMiddleware_app sampleMessage [fun _ => throw (Error "stop")]
              [pure_transform upper_text]) as [_ H].
  exact (H [] (Error "stop") eq_refl).
Defined.

End UtilsMore.

(** ** More on the entity index *)

Module LookupMore.
Import JsString JsStringFacts Lookup LookupPred MorePred.

(** ASCII case mapping. *)
Lemma upper_lower_ascii (c : ascii) : upper_ascii (lower_ascii c) = upper_ascii c.
Proof. destruct c as [[] [] [] [] [] [] [] []]; reflexivity. Qed.

Lemma lower_upper_ascii (c : ascii) : lower_ascii (upper_ascii c) = lower_ascii c.
Proof. destruct c as [[] [] [] [] [] [] [] []]; reflexivity. Qed.

Lemma upper_upper_ascii (c : ascii) : upper_ascii (upper_ascii c) = upper_ascii c.
Proof. destruct c as [[] [] [] [] [] [] [] []]; reflexivity. Qed.

Lemma lower_lower_ascii (c : ascii) : lower_ascii (lower_ascii c) = lower_ascii c.
Proof. destruct c as [[] [] [] [] [] [] [] []]; reflexivity. Qed.

Lemma toUpperCase_toLowerCase (s : string) :
  toUpperCase (toLowerCase s) = toUpperCase s.
Proof. induction s as [|c s IH]; simpl; [|rewrite upper_lower_ascii, IH]; reflexivity. Qed.

Lemma toLowerCase_toUpperCase (s : string) :
  toLowerCase (toUpperCase s) = toLowerCase s.
Proof. induction s as [|c s IH]; simpl; [|rewrite lower_upper_ascii, IH]; reflexivity. Qed.

Lemma toUpperCase_idem (s : string) : toUpperCase (toUpperCase s) = toUpperCase s.
Proof. induction s as [|c s IH]; simpl; [|rewrite upper_upper_ascii, IH]; reflexivity. Qed.

Lemma toLowerCase_idem (s : string) : toLowerCase (toLowerCase s) = toLowerCase s.
Proof. induction s as [|c s IH]; simpl; [|rewrite lower_lower_ascii, IH]; reflexivity. Qed.

Lemma getByNameOrID_same_keys (x y : string) (s : SlackEntityLookup) :
  toUpperCase x = toUpperCase y -> toLowerCase x = toLowerCase y ->
  getByNameOrID x s = getByNameOrID y s.
Proof. intros Hu Hl. unfold getByNameOrID. now rewrite Hu, Hl. Qed.

Lemma getByNameOrID_lower (x : string) (s : SlackEntityLookup) :
  getByNameOrID (toLowerCase x) s = getByNameOrID x s.
Proof.
  apply getByNameOrID_same_keys;
    [apply toUpperCase_toLowerCase | apply toLowerCase_idem].
Qed.

Lemma getByNameOrID_upper (x : string) (s : SlackEntityLookup) :
  getByNameOrID (toUpperCase x) s = getByNameOrID x s.
Proof.
  apply getByNameOrID_same_keys;
    [apply toUpperCase_idem | apply toLowerCase_toUpperCase].
Qed.

(** X5: [getByNameOrID] does not see the case of its argument: two spellings
    with the same upper-case form find the same record, in any index. *)
Theorem getByNameOrID_case_insensitive (x y : string) (s : SlackEntityLookup) :
  toUpperCase x = toUpperCase y -> getByNameOrID x s = getByNameOrID y s.
Proof.
  intros H. apply getByNameOrID_same_keys; [exact H|].
  now rewrite <- (toLowerCase_toUpperCase x), H, toLowerCase_toUpperCase.
Qed.

Lemma getByNameOrID_case_insensitive_witness :
  getByNameOrID "u0164c6fxlk" Reference.test_users
  = getByNameOrID "U0164C6FXLK" Reference.test_users.
Proof.
  apply (getByNameOrID_case_insensitive "u0164c6fxlk" "U0164C6FXLK").
  reflexivity.
Defined.

(** *** The name maps *)

Lemma bind_Return_inv {A B} (c : Eff A) (k : A -> Eff B) (tr : list Event) (b : B) :
  bind c k = (tr, Return b) ->
  exists tr1 a tr2, c = (tr1, Return a) /\ k a = (tr2, Return b) /\ tr = tr1 ++ tr2.
Proof.
  destruct c as [tr1 [a|e]]; simpl; [|discriminate].
  destruct (k a) as [tr2 o] eqn:E. intros [= <- ->]. now exists tr1, a, tr2.
Qed.

(** X6: After any sequence of [add] calls on a fresh index, the name maps
    hold, for every key, the records registered under it, oldest first,
    and the latest of them as the primary entry.  A record is registered
    under its lower-cased name and then under its lower-cased lichess
    name, twice under the same key when the two coincide, under no name
    when its id starts with D or it has no name, and not under a
    property name of [Object.prototype] nor under what follows it, since
    the call throws there.  So no such key holds a record, and reading
    one gives the inherited property. *)
Theorem add_all_name_maps (entities : list SlackEntity) (k : string) :
  byName (index_of entities) !! k
    = last (under_key k (name_registrations entities)) /\
  default [] (nameDuplicates (index_of entities) !! k)
    = under_key k (name_registrations entities) /\
  (k ∈ Object_prototype_keys ->
     under_key k (name_registrations entities) = [] /\
     get_property (byName (index_of entities)) k = Some (Inherited k)) /\
  (k ∉ Object_prototype_keys ->
     get_property (byName (index_of entities)) k
       = Own <$> last (under_key k (name_registrations entities))).
Proof.
  destruct (LookupSpec.index_of_tracks entities) as (_ & _ & Hnames).
  destruct (Hnames k) as [Hprim Hdup]. split; [exact Hprim|]. split.
  { rewrite Hdup. now destruct (under_key k (name_registrations entities)). }
  split.
  - intros Hk. pose proof (LookupSpec.under_key_inherited entities k Hk) as E.
    split; [exact E|]. rewrite E in Hprim.
    rewrite (LookupSpec.get_property_missing _ _ Hprim).
    apply LookupSpec.is_inherited_true in Hk. now rewrite Hk.
  - intros Hk. rewrite <- Hprim.
    destruct (byName (index_of entities) !! k) as [x|] eqn:E.
    + now rewrite (LookupSpec.get_property_own _ _ _ E).
    + rewrite (LookupSpec.get_property_missing _ _ E).
      apply LookupSpec.is_inherited_false in Hk. now rewrite Hk.
Qed.

(** X7: A sequence of [add] calls on a fresh index logs exactly one warning
    for each record that has no name and whose id does not start with
    D, in the order of the calls, and nothing else: a call that throws
    logs nothing. *)
Theorem add_all_warnings (entities : list SlackEntity) :
  fst (add_all entities Lookup.empty) = flat_map add_warning entities /\
  forall e,
    trace (fst (add e (index_of entities))) = add_warning e /\
    (outcome (fst (add e (index_of entities))) <> Return tt -> add_warning e = []).
Proof.
  destruct (LookupSpec.index_of_tracks entities) as (E & _). split.
  - now rewrite E.
  - intros e. rewrite LookupSpec.add_index_of. cbn [fst trace outcome].
    split; [reflexivity|]. unfold add_outcome, add_warning, name_keys.
    destruct (startsWith (id e) "D"); [now intros _|].
    destruct (name e); [now intros _|]. cbn. intros H. now contradict H.
Qed.

(** *** Lookups after [add] *)

Lemma and_then_Return_inv (c : Call) (k : SlackEntityLookup -> Call)
    (tr : list Event) (s' : SlackEntityLookup) :
  and_then c k = ((tr, Return tt), s') ->
  exists tr1 s1 tr2,
    c = ((tr1, Return tt), s1) /\ k s1 = ((tr2, Return tt), s') /\ tr = tr1 ++ tr2.
Proof.
  destruct c as [[tr1 [[]|err]] s1]; cbn [and_then]; [|discriminate].
  destruct (k s1) as [[tr2 o] s2] eqn:E. intros [= <- -> <-].
  now exists tr1, s1, tr2.
Qed.

Lemma _addByIdWithDuplicate_primary (key : string) (e : SlackEntity)
    (s s' : SlackEntityLookup) (tr : list Event) :
  _addByIdWithDuplicate key e s = ((tr, Return tt), s') ->
  tr = [] /\ byId s' = <[key := e]> (byId s) /\ byName s' = byName s.
Proof.
  unfold _addByIdWithDuplicate, returns, throws, ret, throw.
  destruct (get_property (byId s) key);
    [destruct (get_property (idDuplicates s) key) as [[l|k]|]|];
    intros [= <- <-]; now repeat split.
Qed.

Lemma _addByNameWithDuplicate_primary (key : string) (e : SlackEntity)
    (s s' : SlackEntityLookup) (tr : list Event) :
  _addByNameWithDuplicate key e s = ((tr, Return tt), s') ->
  tr = [] /\ byName s' = <[key := e]> (byName s) /\ byId s' = byId s.
Proof.
  unfold _addByNameWithDuplicate, returns, throws, ret, throw.
  destruct (get_property (byName s) key);
    [destruct (get_property (nameDuplicates s) key) as [[l|k]|]|];
    intros [= <- <-]; now repeat split.
Qed.

(** The primary maps after an [add] that returned. *)
Lemma add_primary (e : SlackEntity) (s s' : SlackEntityLookup) (tr : list Event) :
  add e s = ((tr, Return tt), s') ->
  byId s' = <[toUpperCase (id e) := e]> (byId s) /\
  forall k, byName s' !! k =
            if decide (k ∈ name_keys e) then Some e else byName s !! k.
Proof.
  unfold add, name_keys. intros H.
  apply and_then_Return_inv in H as (tr1 & s1 & tr2 & H1 & H2 & ->).
  apply _addByIdWithDuplicate_primary in H1 as (-> & Hb1 & Hn1).
  destruct (startsWith (id e) "D").
  { injection H2 as <- <-. split; [exact Hb1|]. intros k.
    rewrite decide_False by apply not_elem_of_nil. now rewrite Hn1. }
  destruct (name e) as [n|].
  2:{ injection H2 as _ <-. split; [exact Hb1|]. intros k.
      rewrite decide_False by apply not_elem_of_nil. now rewrite Hn1. }
  apply and_then_Return_inv in H2 as (tr3 & s2 & tr4 & H3 & H4 & ->).
  assert (byId s2 = byId s1 /\
          forall k, byName s2 !! k =
                    if decide (k ∈ (if truthy n then [toLowerCase n] else []))
                    then Some e else byName s !! k) as [Hb2 Hn2].
  { destruct (truthy n).
    - apply _addByNameWithDuplicate_primary in H3 as (_ & Hn & Hb).
      split; [exact Hb|]. intros k. rewrite Hn, Hn1.
      destruct (decide (k ∈ [toLowerCase n])) as [Hin|Hout].
      + apply list_elem_of_singleton in Hin as ->. apply lookup_insert_eq.
      + apply lookup_insert_ne. intros <-. apply Hout, list_elem_of_singleton.
        reflexivity.
    - injection H3 as _ <-. split; [reflexivity|]. intros k.
      rewrite decide_False by apply not_elem_of_nil. now rewrite Hn1. }
  assert (byId s' = byId s2 /\
          forall k, byName s' !! k =
                    if decide (k ∈ match lichess_username e with
                                   | Some u => if truthy u then [toLowerCase u] else []
                                   | None => []
                                   end)
                    then Some e else byName s2 !! k) as [Hb3 Hn3].
  { destruct (lichess_username e) as [u|]; [destruct (truthy u)|].
    - apply _addByNameWithDuplicate_primary in H4 as (_ & Hn & Hb).
      split; [exact Hb|]. intros k. rewrite Hn.
      destruct (decide (k ∈ [toLowerCase u])) as [Hin|Hout].
      + apply list_elem_of_singleton in Hin as ->. apply lookup_insert_eq.
      + apply lookup_insert_ne. intros <-. apply Hout, list_elem_of_singleton.
        reflexivity.
    - injection H4 as _ <-. split; [reflexivity|]. intros k.
      now rewrite decide_False by apply not_elem_of_nil.
    - injection H4 as _ <-. split; [reflexivity|]. intros k.
      now rewrite decide_False by apply not_elem_of_nil. }
  split; [now rewrite Hb3, Hb2, Hb1|].
  intros k. rewrite Hn3, Hn2.
  repeat match goal with |- context [decide ?P] => destruct (decide P) end;
    try reflexivity; exfalso;
    repeat match goal with
           | H : _ ∈ _ ++ _ |- _ => apply elem_of_app in H as [H|H]
           | H : ¬ _ ∈ _ ++ _ |- _ =>
               apply not_elem_of_app in H as [? ?]
           end; contradiction.
Qed.

(** X8: Insert then look up: after an [add] that returned, the record is
    found under every spelling of its id, whatever a name entry says,
    and under each of its name keys in the name map; the lookups of the
    other keys are as before. *)
Theorem add_then_lookup (e : SlackEntity) (s s' : SlackEntityLookup)
    (tr : list Event) :
  add e s = ((tr, Return tt), s') ->
  (forall i, toUpperCase i = toUpperCase (id e) ->
             getByNameOrID i s' = Some (Own e)) /\
  (forall k, k ∈ name_keys e -> byName s' !! k = Some e) /\
  (forall x, toUpperCase x <> toUpperCase (id e) ->
             toLowerCase x ∉ name_keys e ->
             getByNameOrID x s' = getByNameOrID x s).
Proof.
  intros H. apply add_primary in H as [Hb Hn]. split; [|split].
  - intros i Hi. unfold getByNameOrID.
    rewrite (LookupSpec.get_property_own _ _ e); [reflexivity|].
    now rewrite Hb, Hi, lookup_insert_eq.
  - intros k Hk. now rewrite Hn, decide_True.
  - intros x Hx Hk. unfold getByNameOrID.
    rewrite (LookupSpec.get_property_ext (byId s') (byId s))
      by (rewrite Hb; apply lookup_insert_ne; congruence).
    rewrite (LookupSpec.get_property_ext (byName s') (byName s))
      by (now rewrite Hn, decide_False).
    reflexivity.
Qed.

Lemma add_then_lookup_witness :
  getByNameOrID "u0200glbert" Reference.test_users = Some (Own Reference.glbert).
Proof.
  assert (add Reference.glbert (index_of [Reference.lakin])
          = (([], Return tt), Reference.test_users)) as H by (vm_compute; reflexivity).
  destruct (add_then_lookup Reference.glbert _ Reference.test_users [] H) as [H1 _].
  apply H1. reflexivity.
Defined.

(** *** getName, getIdString, clear *)

Lemma registered_under_upper (i : string) (entities : list SlackEntity) :
  toUpperCase i <> i -> registered_under i entities = [].
Proof.
  intros Hi. unfold registered_under.
  induction entities as [|e es IH]; [reflexivity|].
  rewrite filter_cons. destruct (decide (toUpperCase (id e) = i)) as [<-|_];
    [|exact IH].
  exfalso. apply Hi, toUpperCase_idem.
Qed.

(** X9: [getName] reads the id map with the id as it is given, while [add]
    files every record under its upper-cased id.  On an index built by
    [add] calls: an id that is a property name of [Object.prototype]
    finds the inherited property, so that its [name] is returned and
    nothing is logged; any other id that is not in upper case is not
    found, also when a record with that very id was added; an
    upper-case id gives the name of the latest record registered under
    it. *)
Theorem getName_case_sensitive (entities : list SlackEntity) (i : string) :
  (i ∈ Object_prototype_keys ->
     getName i (index_of entities) = ret (inherited_name i)) /\
  (i ∉ Object_prototype_keys -> toUpperCase i <> i ->
     getName i (index_of entities) =
       ([Logged LogLevel_error ("Couldn't find entity by id: " +:+ i)], Return None)) /\
  (toUpperCase i = i ->
     getName i (index_of entities) =
       match last (registered_under i entities) with
       | Some e => ret (name e)
       | None =>
           ([Logged LogLevel_error ("Couldn't find entity by id: " +:+ i)],
            Return None)
       end).
Proof.
  destruct (LookupSpec.index_of_tracks entities) as (_ & Hid & _).
  destruct (Hid i) as [Hprim _]. unfold getName. split; [|split].
  - intros Hk.
    assert (toUpperCase i <> i) as Hi
      by (intros E; apply (LookupSpec.toUpperCase_not_inherited i); now rewrite E).
    rewrite (registered_under_upper i entities Hi) in Hprim.
    rewrite (LookupSpec.get_property_missing _ _ Hprim).
    apply LookupSpec.is_inherited_true in Hk. now rewrite Hk.
  - intros Hk Hi.
    rewrite (registered_under_upper i entities Hi) in Hprim.
    rewrite (LookupSpec.get_property_missing _ _ Hprim).
    apply LookupSpec.is_inherited_false in Hk. now rewrite Hk.
  - intros Hi.
    destruct (last (registered_under i entities)) as [e|].
    + now rewrite (LookupSpec.get_property_own _ _ _ Hprim).
    + rewrite (LookupSpec.get_property_missing _ _ Hprim).
      assert (is_inherited i = false) as ->; [|reflexivity].
      apply LookupSpec.is_inherited_false. rewrite <- Hi.
      apply LookupSpec.toUpperCase_not_inherited.
Qed.

Lemma getName_case_sensitive_witness :
  getName "u1" (index_of [u1_second]) =
    ([Logged LogLevel_error "Couldn't find entity by id: u1"], Return None).
Proof.
  destruct (getName_case_sensitive [u1_second] "u1") as (_ & H & _).
  apply H.
  - apply LookupSpec.is_inherited_false. vm_compute. reflexivity.
  - vm_compute. discriminate.
Defined.

(** X10: [getIdString] on an index built by [add] calls: for a name with a
    registration it is the id, in its original case, of the latest
    record registered under the lower-cased name, between brackets and
    after the prefix; for any other name the id reads "undefined", and
    the error is logged unless the lower-cased name is a property name
    of [Object.prototype], which is found and has no id. *)
Theorem getIdString_of_index (entities : list SlackEntity)
    (idStringPrefix n : string) :
  getIdString idStringPrefix n (index_of entities) =
  match last (under_key (toLowerCase n) (name_registrations entities)) with
  | Some e => ret ("<" +:+ idStringPrefix +:+ id e +:+ ">")
  | None =>
      if is_inherited (toLowerCase n)
      then ret ("<" +:+ idStringPrefix +:+ "undefined" +:+ ">")
      else ([Logged LogLevel_error ("Couldn't find entity by name: " +:+ n)],
            Return ("<" +:+ idStringPrefix +:+ "undefined" +:+ ">"))
  end.
Proof.
  destruct (LookupSpec.index_of_tracks entities) as (_ & _ & Hnames).
  destruct (Hnames (toLowerCase n)) as [Hprim _].
  unfold getIdString, getId.
  destruct (last (under_key (toLowerCase n) (name_registrations entities))) as [e|].
  - now rewrite (LookupSpec.get_property_own _ _ _ Hprim).
  - rewrite (LookupSpec.get_property_missing _ _ Hprim).
    now destruct (is_inherited (toLowerCase n)).
Qed.

Lemma fold_file_name_ids (e : SlackEntity) (keys : list string)
    (s : SlackEntityLookup) :
  idDuplicates (fold_left (fun s k => file_name k e s) keys s) = idDuplicates s.
Proof.
  revert s. induction keys as [|k keys IH]; intros s; [reflexivity|].
  cbn [fold_left]. now rewrite IH.
Qed.

(** X11: [clear] empties the primary maps and keeps the duplicates maps: on
    an index built by [add] calls, after [clear] no lookup finds a
    record (a name that is a property name of [Object.prototype] still
    finds the inherited property) while [getIdDuplicates] still lists
    the old records; a later [add] ends as on any index and restarts
    the list of its own id only. *)
Theorem clear_keeps_duplicates (entities : list SlackEntity) :
  let c := clear (index_of entities) in
  (forall x, getByNameOrID x c =
             if is_inherited (toLowerCase x)
             then Some (Inherited (toLowerCase x)) else None) /\
  (forall i, getIdDuplicates i c = registered_under (toUpperCase i) entities) /\
  forall e,
    fst (add e c) = (add_warning e, add_outcome e) /\
    getIdDuplicates (id e) (snd (add e c)) = [e] /\
    forall i, toUpperCase i <> toUpperCase (id e) ->
              getIdDuplicates i (snd (add e c))
                = registered_under (toUpperCase i) entities.
Proof.
  intros c. destruct (LookupSpec.index_of_tracks entities) as (_ & Hid & Hnames).
  assert (forall i, getIdDuplicates i c = registered_under (toUpperCase i) entities)
    as Hstale by (intros i; apply LookupSpec.getIdDuplicates_index_of).
  split; [|split; [exact Hstale|]].
  - intros x. unfold getByNameOrID, c. cbn [clear byId byName].
    rewrite (LookupSpec.get_property_missing _ _ (lookup_empty _)).
    assert (is_inherited (toUpperCase x) = false) as ->
      by apply LookupSpec.is_inherited_false, LookupSpec.toUpperCase_not_inherited.
    now rewrite (LookupSpec.get_property_missing _ _ (lookup_empty _)).
  - intros e.
    assert (ids_consistent c) as Hic.
    { intros k [x Hx]. unfold c in Hx. cbn in Hx. now rewrite lookup_empty in Hx. }
    assert (names_consistent c) as Hnc.
    { intros k. unfold c. cbn [clear byName nameDuplicates]. split.
      - intros [x Hx]. now rewrite lookup_empty in Hx.
      - intros Hk. split; [apply lookup_empty|].
        destruct (Hnames k) as [_ ->].
        now rewrite (LookupSpec.under_key_inherited entities k Hk). }
    rewrite (LookupSpec.add_spec e c Hic Hnc). cbn [fst snd].
    split; [reflexivity|].
    unfold getIdDuplicates, after_add. rewrite fold_file_name_ids.
    cbn [file_id idDuplicates]. split.
    + rewrite lookup_insert_eq. unfold c. cbn [clear byId].
      now rewrite lookup_empty.
    + intros i Hi. rewrite lookup_insert_ne by congruence.
      apply (Hstale i).
Qed.

End LookupMore.

(** ** More on the Slack bot *)

Module SlackMore.
Import JsString JsStringFacts Lookup Slack LookupPred SlackPred MorePred.

(** *** hasSingleUser *)

Lemma set_elements_nil_iff {A} `{EqDecision A} (seen xs : list A) :
  set_elements seen xs = [] <-> forall x, x ∈ xs -> x ∈ seen.
Proof.
  revert seen. induction xs as [|x xs IH]; intros seen; simpl.
  - split; [intros _ y Hy; now apply not_elem_of_nil in Hy | reflexivity].
  - destruct (decide (x ∈ seen)) as [Hin|Hout].
    + rewrite IH. split.
      * intros H y Hy. apply elem_of_cons in Hy as [->|Hy]; auto.
      * intros H y Hy. apply H, elem_of_cons. now right.
    + split; [discriminate|]. intros H. exfalso. apply Hout, H, elem_of_cons.
      now left.
Qed.

Lemma set_elements_single {A} `{EqDecision A} (xs : list A) :
  length (set_elements [] xs) = 1 <->
  exists u, xs <> [] /\ forall x, x ∈ xs -> x = u.
Proof.
  destruct xs as [|x xs]; cbn [set_elements].
  - split; [discriminate | intros (u & H & _); congruence].
  - destruct (decide (x ∈ [])) as [Hin|_]; [now apply not_elem_of_nil in Hin|].
    cbn [length]. split.
    + intros H. exists x. split; [discriminate|].
      assert (set_elements [x] xs = []) as E
        by (destruct (set_elements [x] xs); [reflexivity | discriminate]).
      intros y Hy. apply elem_of_cons in Hy as [->|Hy]; [reflexivity|].
      rewrite set_elements_nil_iff in E. apply E in Hy.
      now apply list_elem_of_singleton in Hy.
    + intros (u & _ & H).
      assert (set_elements [x] xs = []) as ->; [|reflexivity].
      apply set_elements_nil_iff. intros y Hy. apply list_elem_of_singleton.
      rewrite (H x) by (apply elem_of_cons; now left).
      apply H, elem_of_cons. now right.
Qed.

(** X12: On a user index built by [add] calls, [hasSingleUser] answers true,
    silently, exactly when at least one record was registered under the
    sender's id and all of them carry the same lichess name, a missing
    lichess name counting as a name of its own; otherwise it answers
    false after exactly one reply. *)
Theorem hasSingleUser_outcomes (bot : SlackBot) (message : CommandMessage)
    (entities : list SlackEntity) :
  users bot = index_of entities ->
  let recs := registered_under (toUpperCase (user message)) entities in
  ((exists u, recs <> [] /\ forall r, r ∈ recs -> lichess_username r = u) ->
     hasSingleUser bot message = ret true) /\
  (~ (exists u, recs <> [] /\ forall r, r ∈ recs -> lichess_username r = u) ->
     outcome (hasSingleUser bot message) = Return false /\
     length (replies (trace (hasSingleUser bot message))) = 1).
Proof.
  intros Husers recs. unfold hasSingleUser.
  rewrite Husers, LookupSpec.getIdDuplicates_index_of. fold recs.
  pose proof (set_elements_single (map lichess_username recs)) as Hone.
  assert ((exists u, map lichess_username recs <> [] /\
                     forall x, x ∈ map lichess_username recs -> x = u) <->
          (exists u, recs <> [] /\ forall r, r ∈ recs -> lichess_username r = u))
    as Hmap.
  { split; intros (u & Hne & Hall); exists u; split.
    - intros ->. now apply Hne.
    - intros r Hr. apply Hall, list_elem_of_fmap. now exists r.
    - intros E. apply Hne. now destruct recs.
    - intros x Hx. apply list_elem_of_fmap in Hx as (r & -> & Hr). now apply Hall. }
  rewrite Hmap in Hone.
  destruct (length (set_elements [] (map lichess_username recs)) =? 1)%nat eqn:E.
  - apply Nat.eqb_eq in E. split; [reflexivity|]. intros Hno. exfalso.
    now apply Hno, Hone.
  - apply Nat.eqb_neq in E. split; [|now split].
    intros Hyes. exfalso. now apply E, Hone.
Qed.

Lemma hasSingleUser_outcomes_witness :
  outcome (hasSingleUser
             {| channelMap := ∅; pingMods := ∅;
                users := index_of [u1_first; u1_second] |}
             (Reference.message_in Reference.general "U1" "rating"))
  = Return false.
Proof.
  destruct (hasSingleUser_outcomes
              {| channelMap := ∅; pingMods := ∅;
                 users := index_of [u1_first; u1_second] |}
              (Reference.message_in Reference.general "U1" "rating")
              [u1_first; u1_second] eq_refl) as [_ H].
  apply H. intros (u & _ & Hall).
  assert (lichess_username u1_first = u) as H1
    by (apply Hall; vm_compute; apply elem_of_cons; now left).
  assert (lichess_username u1_second = u) as H2
    by (apply Hall; vm_compute; apply elem_of_cons; right; apply elem_of_cons; now left).
  rewrite <- H1 in H2. discriminate.
Defined.

Section WithModules.
Context `{LM : LeagueModule} `{FM : FuzzyModule}.

(** *** getLeague and the failure boundary of handleMatch *)

(** X13: [getLeague] assigns what it returns: when it returns, the message
    carries the returned league, or none if none was found, whatever
    league it carried before; nothing is logged or sent on the way.
    Restricted to the channel, it always returns. *)
Theorem getLeague_assigns (bot : SlackBot) (message : CommandMessage)
    (channelOnly : bool) :
  (forall tr m' found,
     getLeague bot message channelOnly = (tr, Return (m', found)) ->
     tr = [] /\ m' = set_league found message) /\
  exists r, getLeague bot message true = ret r.
Proof.
  split.
  - intros tr m' found H.
    pose proof (SlackSpec.getLeague_silent bot message channelOnly) as Hsilent.
    rewrite H in Hsilent. simpl in Hsilent. split; [exact Hsilent|].
    apply (SlackSpec.getLeague_returned bot message channelOnly (m', found)).
    now rewrite H.
  - unfold getLeague. cbn [negb].
    repeat match goal with
           | |- context [match ?x with Some _ => _ | None => _ end] =>
               lazymatch x with
               | context [match _ with Some _ => _ | None => _ end] => fail
               | _ => destruct x eqn:?
               end
           | |- context [if ?b then _ else _] => destruct b eqn:?
           end; eexists; reflexivity.
Qed.

(** X14: [handleMatch] throws exactly when league resolution throws, with the
    same error: nothing that the middleware or the callback of the
    listener throws gets out of it. *)
Theorem handleMatch_throws_iff (bot : SlackBot)
    (listener : SlackRTMEventListenerOptions) (message : CommandMessage)
    (e : JsError) :
  outcome (handleMatch bot listener message) = Throw e <->
  outcome (getLeague bot message false) = Throw e.
Proof.
  destruct (outcome (getLeague bot message false)) as [r|e'] eqn:Hl.
  - rewrite (SlackSpec.handleMatch_contained bot listener message r Hl).
    split; discriminate.
  - rewrite SlackSpec.handleMatch_unfold.
    destruct (SlackSpec.resolve_member_outcome bot listener message) as (Hm & _).
    destruct (resolve_member bot listener message) as [tr1 o1]. simpl in Hm.
    subst o1. destruct (getLeague bot message false) as [tr2 o2]. simpl in Hl.
    subst o2. simpl. split; intros [= ->]; reflexivity.
Qed.

(** *** requiresLeague and the delivery of commands *)

Lemma requiresLeague_asks (bot : SlackBot) (message : CommandMessage) :
  league message = None ->
  requiresLeague bot message =
    ([Said (Some (channel_id (channel message))) league_request],
     Throw (StopControllerError "No league specified")).
Proof. intros H. unfold requiresLeague. now rewrite H. Qed.

Lemma requiresLeague_passes (bot : SlackBot) (message : CommandMessage) (l : League) :
  league message = Some l -> requiresLeague bot message = ret message.
Proof. intros H. unfold requiresLeague. now rewrite H. Qed.

(** X15: A plain command guarded by [requiresLeague]: when no league
    resolves, the user gets the one request to name a league and the
    callback is not entered; when a league resolves, the callback is
    entered on a message carrying that league, and [handleMatch] sends
    nothing before it. *)
Theorem requiresLeague_gate (bot : SlackBot)
    (listener : SlackRTMEventListenerOptions) (message : CommandMessage)
    (r : CommandMessage * option League) :
  Slack.type listener = command ->
  Slack.middleware listener = Some [requiresLeague] ->
  outcome (getLeague bot message false) = Return r ->
  let hm := handleMatch bot listener message in
  (snd r = None ->
     replies (trace hm) = [Said (Some (channel_id (channel message))) league_request] /\
     invocations (trace hm) = [] /\ outcome hm = Return tt) /\
  (forall l, snd r = Some l ->
     exists before m after,
       trace hm = before ++ Invoked m :: after /\
       replies before = [] /\ invocations before = [] /\ league m = Some l).
Proof.
  intros Hty Hmw Hl hm. subst hm.
  pose proof (SlackSpec.getLeague_returned bot message false r Hl) as Hassign.
  destruct r as [m' found]. cbn [fst snd] in *. subst m'.
  rewrite (SlackSpec.handleMatch_after bot listener message _ Hl).
  cbn [fst snd trace outcome].
  destruct (SlackSpec.resolve_member_outcome bot listener message)
    as (_ & Hrep & Hinv & _).
  set (T := trace (resolve_member bot listener message)) in *.
  unfold after_resolution, dispatch, run_middleware. rewrite Hty, Hmw.
  assert (allows (allowedTypes found (acting_member bot message)) command = true)
    as -> by (destruct found, (acting_member bot message); reflexivity).
  rewrite (bool_decide_eq_true_2 (command = command)) by reflexivity.
  cbn [andb for_each].
  set (pinged := set_isPingModerator _ (set_league found message)).
  destruct (SlackSpec.spread_member_fields (acting_member bot message) pinged)
    as (Hsl & _ & Hsc).
  split.
  - intros ->.
    rewrite (requiresLeague_asks bot (spread_member (acting_member bot message) pinged))
      by (rewrite Hsl; reflexivity).
    rewrite Hsc. simpl.
    rewrite SlackSpec.replies_app, SlackSpec.invocations_app, Hrep, Hinv.
    now repeat split.
  - intros l ->.
    rewrite (requiresLeague_passes bot
               (spread_member (acting_member bot message) pinged) l)
      by (rewrite Hsl; reflexivity).
    set (m := spread_member (acting_member bot message) pinged).
    exists (T ++ [Logged info ("Executing command callback for pattern: "
                                +:+ pattern_sources listener)]), m.
    destruct (callback listener bot m) as [trc [[]|ec]] eqn:Ecb.
    + eexists. split; [simpl; rewrite <- List.app_assoc; reflexivity|].
      rewrite SlackSpec.replies_app, SlackSpec.invocations_app, Hrep, Hinv.
      split; [reflexivity|]. split; [reflexivity|]. unfold m. now rewrite Hsl.
    + destruct ec as [reason|reason]; eexists;
        (split; [simpl; rewrite <- List.app_assoc; reflexivity|]);
        rewrite SlackSpec.replies_app, SlackSpec.invocations_app, Hrep, Hinv;
        (split; [reflexivity|]); (split; [reflexivity|]); unfold m; now rewrite Hsl.
Qed.

(** X16: A league command without middleware, with both the league and the
    member resolved: the callback is entered once, on the message
    carrying the league, the member and the moderator flag computed by
    the league, and, when it returns, [handleMatch] logs its success
    line and returns. *)
Theorem league_command_delivery (bot : SlackBot)
    (listener : SlackRTMEventListenerOptions) (message m' : CommandMessage)
    (l : League) (mem : Property SlackEntity) :
  Slack.type listener = league_command ->
  Slack.middleware listener = None ->
  outcome (getLeague bot message false) = Return (m', Some l) ->
  acting_member bot message = Some mem ->
  let lcm := leagueCommandMessage bot m' l mem in
  league lcm = Some l /\ member lcm = Some mem /\
  isModerator lcm = Some (League_isModerator l (entity_lichess_username mem)) /\
  forall trc,
    callback listener bot lcm = (trc, Return tt) ->
    handleMatch bot listener message =
      (trace (resolve_member bot listener message)
       ++ [Logged info ("Executing league_command callback for pattern: "
                        +:+ pattern_sources listener);
           Invoked lcm]
       ++ trc ++ [Logged info "League command executed successfully"],
       Return tt).
Proof.
  intros Hty Hmw Hl Hwho lcm. repeat split.
  intros trc Hcb.
  rewrite (SlackSpec.handleMatch_after bot listener message _ Hl). cbn [fst snd].
  rewrite Hwho. unfold after_resolution, dispatch, run_middleware.
  rewrite Hty, Hmw. cbn [allowedTypes allows].
  rewrite (bool_decide_eq_false_2 (league_command = command)) by discriminate.
  rewrite (bool_decide_eq_true_2 (league_command = league_command)) by reflexivity.
  assert (allows [command; league_command] league_command = true) as ->
    by reflexivity.
  cbn [andb]. fold (leagueCommandMessage bot m' l mem). fold lcm.
  rewrite bind_ret_l. simpl. rewrite Hcb. reflexivity.
Qed.

(** *** The labels of the leagues *)

Lemma fold_insert_lookup (ps : list (string * League)) (m : gmap string League)
    (t : string) :
  fold_left (fun m tl => <[fst tl := snd tl]> m) ps m !! t =
  match last (filter (fun p => fst p = t) ps) with
  | Some p => Some (snd p)
  | None => m !! t
  end.
Proof.
  revert m. induction ps as [|p ps IH]; intros m; [reflexivity|].
  cbn [fold_left]. rewrite IH, filter_cons.
  destruct (decide (fst p = t)) as [Hp|Hp].
  - rewrite last_cons. destruct (last (filter _ ps)); [reflexivity|].
    now rewrite <- Hp, lookup_insert_eq.
  - destruct (last (filter _ ps)); [reflexivity|].
    now rewrite lookup_insert_ne.
Qed.




Lemma targetToLeague_lookup (allLeagues : list League) (t : string) :
  targetToLeague allLeagues !! t =
  snd <$> last (filter (fun p => fst p = t) (all_targets allLeagues)).
Proof.
  unfold targetToLeague. rewrite fold_insert_lookup, lookup_empty.
  now destruct (last _).
Qed.

Lemma targetToLeague_in_targets (allLeagues : list League) (t : string) (l : League) :
  targetToLeague allLeagues !! t = Some l -> (t, l) ∈ all_targets allLeagues.
Proof.
  rewrite targetToLeague_lookup.
  destruct (last _) as [[t' l']|] eqn:El; [|discriminate].
  intros [= <-]. apply last_Some_elem_of, list_elem_of_filter in El as [Ht Hin].
  simpl in Ht. now subst.
Qed.

Lemma leagueTargets_owned (allLeagues : list League) (t : string) :
  t ∈ leagueTargets allLeagues <-> is_Some (targetToLeague allLeagues !! t).
Proof.
  unfold leagueTargets. rewrite list_elem_of_In, in_map_iff. split.
  - intros ([t' l] & <- & Hl%list_elem_of_In). rewrite targetToLeague_lookup.
    destruct (last _) as [p|] eqn:El; [now eexists|].
    apply last_None in El. exfalso.
    assert ((t', l) ∈ filter (fun p => fst p = fst (t', l))
                        (all_targets allLeagues)) as H
      by (apply list_elem_of_filter; now split).
    rewrite El in H. now apply not_elem_of_nil in H.
  - intros [l Hl]. exists (t, l). split; [reflexivity|].
    now apply list_elem_of_In, targetToLeague_in_targets.
Qed.


(** X18: With a matcher that only returns labels it was given, every best
    match has an owner, so [findLeagueByMessageText] either returns or
    fails as ambiguous: it never fails on a missing owner. *)
Theorem findLeagueByMessageText_sound_matcher (bot : SlackBot)
    (message : CommandMessage) :
  (forall q cands r, r ∈ fuzzy_rankChoices q cands -> value r ∈ cands) ->
  (forall rs r, r ∈ fuzzy_findBestMatches rs -> r ∈ rs) ->
  matches_known bot (text message) /\
  forall e, outcome (findLeagueByMessageText bot message) = Throw e ->
            e = StopControllerError "Ambiguous leagues.".
Proof.
  intros Hrank Hbest.
  assert (matches_known bot (text message)) as Hknown.
  { unfold matches_known. apply Forall_forall. intros r Hr.
    unfold text_bestMatches in Hr. apply Hbest, list_elem_of_In, in_concat in Hr
      as (rs & Hrs & Hr).
    apply in_map_iff in Hrs as (arg & <- & _).
    apply list_elem_of_In, Hrank in Hr.
    now apply leagueTargets_owned. }
  split; [exact Hknown|]. intros e. unfold findLeagueByMessageText.
  rewrite (SlackSpec.possibleLeagues_loop_known _ _ _ Hknown), bind_ret_l.
  destruct (map_to_list _) as [|[k l] [|kl rest]]; simpl;
    [discriminate | discriminate | now intros [= <-]].
Qed.

End WithModules.

(** *** getSlackUserFromNameOrID *)

Lemma non_space_run_id (u v : string) :
  all_chars (fun c => negb (Utils.is_space c)) u = true ->
  non_space_run (u +:+ v) = u +:+ non_space_run v.
Proof.
  induction u as [|c u IH]; [reflexivity|]. cbn [all_chars].
  intros [Hc Hu]%andb_true_iff. rewrite !app_cons. cbn [non_space_run].
  apply negb_true_iff in Hc. now rewrite Hc, IH.
Qed.

Lemma before_last_gt_snoc (u : string) : before_last_gt (u +:+ ">") = Some u.
Proof.
  induction u as [|c u IH]; [reflexivity|].
  rewrite app_cons. cbn [before_last_gt]. now rewrite IH.
Qed.

Lemma slackIDRegex_exec_mention (u : string) :
  u <> EmptyString ->
  all_chars (fun c => negb (Utils.is_space c)) u = true ->
  slackIDRegex_exec ("<@" +:+ u +:+ ">") = Some [Some ("<@" +:+ u +:+ ">"); Some u].
Proof.
  intros Hne Hu.
  change ("<@" +:+ u +:+ ">") with (String "<" (String "@" (u +:+ ">"))).
  cbn [slackIDRegex_exec startsWith slice Ascii.eqb Bool.eqb].
  unfold slackID_group.
  rewrite (non_space_run_id u ">" Hu).
  change (non_space_run ">") with ">". rewrite before_last_gt_snoc.
  destruct u; [congruence | reflexivity].
Qed.

Lemma slackIDRegex_exec_shape (s : string) (m : RegExpMatchArray) :
  slackIDRegex_exec s = Some m -> exists x, m = [Some ("<@" +:+ x +:+ ">"); Some x].
Proof.
  induction s as [|c s IH]; [discriminate|]. cbn [slackIDRegex_exec].
  destruct (startsWith (String c s) "<@"); [|exact IH].
  destruct (slackID_group _) as [x|]; [|exact IH].
  intros [= <-]. now exists x.
Qed.

(** X19: [getSlackUserFromNameOrID] never throws.  A name or id the index
    knows is returned as it is found; the mention notation of a user the
    index does not know under that spelling resolves like the bare id;
    and when the text has no mention in it, the retry in lower case
    finds nothing the first lookup did not. *)
Theorem getSlackUserFromNameOrID_resolution (bot : SlackBot) (nameOrId : string) :
  (exists r, getSlackUserFromNameOrID bot nameOrId = ret r) /\
  (forall p, getByNameOrID nameOrId (users bot) = Some p ->
             getSlackUserFromNameOrID bot nameOrId = ret (Some p)) /\
  (String_match nameOrId slackIDRegex = None ->
     getSlackUserFromNameOrID bot nameOrId
       = ret (getByNameOrID nameOrId (users bot))) /\
  (forall u, u <> EmptyString ->
             all_chars (fun c => negb (Utils.is_space c)) u = true ->
             nameOrId = "<@" +:+ u +:+ ">" ->
             getByNameOrID nameOrId (users bot) = None ->
             getSlackUserFromNameOrID bot nameOrId
               = ret (getByNameOrID u (users bot))).
Proof.
  unfold getSlackUserFromNameOrID, String_match. cbn [exec slackIDRegex].
  split; [|split; [|split]].
  - destruct (getByNameOrID nameOrId (users bot)); [now eexists|].
    destruct (slackIDRegex_exec nameOrId) as [m|] eqn:E; [|now eexists].
    apply slackIDRegex_exec_shape in E as [x ->]. now eexists.
  - now intros p ->.
  - intros ->. destruct (getByNameOrID nameOrId (users bot)) eqn:E; [reflexivity|].
    now rewrite LookupMore.getByNameOrID_lower, E.
  - intros u Hne Hu -> ->. now rewrite (slackIDRegex_exec_mention u Hne Hu).
Qed.

(** X20: Without a member on the message [getLeagueMemberTarget] has no
    target, whatever the text captured.  With a member and no captured
    name the target is looked up by the member's id: for a member of the
    index that is the record added last under that id, which is the
    member itself unless the id was registered again after it. *)
Theorem getLeagueMemberTarget_default (bot : SlackBot) (message : CommandMessage)
    (entities : list SlackEntity) :
  users bot = index_of entities ->
  (member message = None -> getLeagueMemberTarget bot message = ret None) /\
  (forall m, member message = Some (Own m) -> captured_name message = None ->
             m ∈ entities ->
     exists e,
       getLeagueMemberTarget bot message = ret (Some (Own e)) /\
       last (registered_under (toUpperCase (id m)) entities) = Some e /\
       e ∈ entities /\ toUpperCase (id e) = toUpperCase (id m)).
Proof.
  intros Hu. unfold getLeagueMemberTarget. split; [now intros ->|].
  intros m -> -> Hin. cbn [entity_id].
  destruct (LookupSpec.index_of_tracks entities) as (_ & Hid & _).
  destruct (Hid (toUpperCase (id m))) as [Hby _].
  assert (m ∈ registered_under (toUpperCase (id m)) entities) as Hreg
    by (apply list_elem_of_filter; now split).
  destruct (last (registered_under (toUpperCase (id m)) entities)) as [e|] eqn:El.
  - exists e. apply last_Some_elem_of in El as He.
    apply list_elem_of_filter in He as [Hk He].
    unfold getSlackUserFromNameOrID, getByNameOrID. rewrite Hu.
    rewrite (LookupSpec.get_property_own _ _ _ Hby).
    now repeat split.
  - apply last_None in El. rewrite El in Hreg. now apply not_elem_of_nil in Hreg.
Qed.

(** *** The user links of say *)

Lemma string_app_nil_r (s : string) : s +:+ EmptyString = s.
Proof. induction s as [|c s IH]; [reflexivity|]. now rewrite app_cons, IH. Qed.

Lemma slice_nil (k : nat) : slice k EmptyString = EmptyString.
Proof. now destruct k. Qed.

Lemma replace_links_skip (bot : SlackBot) (k : nat) (s : string) :
  replace_links bot k s = replace_links bot O (slice k s).
Proof.
  revert k. induction s as [|c s IH]; intros k.
  - now rewrite slice_nil.
  - destruct k as [|k]; [reflexivity|]. cbn [replace_links slice]. apply IH.
Qed.

Lemma replace_links_cons (bot : SlackBot) (c : ascii) (s : string) :
  replace_links bot O (String c s)
  = match link_at (String c s) with
    | Some username =>
        link_replacement bot username
          +:+ replace_links bot (String.length username + 2) s
    | None => String c (replace_links bot O s)
    end.
Proof. reflexivity. Qed.

Lemma link_run_prefix (s : string) :
  s = link_run s +:+ slice (String.length (link_run s)) s.
Proof.
  induction s as [|c s IH]; [reflexivity|]. cbn [link_run].
  destruct (is_link_char c); [|reflexivity].
  rewrite app_cons. cbn [String.length slice]. now rewrite <- IH.
Qed.

(** A match of the link pattern at the front of a text. *)
Lemma link_at_Some (s x : string) :
  link_at s = Some x ->
  x <> EmptyString /\
  s = "<@" +:+ x +:+ ">" +:+ slice (String.length x + 3) s.
Proof.
  unfold link_at. destruct (startsWith s "<@") eqn:Hs; [|discriminate].
  apply startsWith_iff in Hs as [rest ->].
  change (slice 2 ("<@" +:+ rest)) with rest.
  change (slice (2 + String.length (link_run rest)) ("<@" +:+ rest))
    with (slice (String.length (link_run rest)) rest).
  destruct (truthy (link_run rest)) eqn:Ht; [|discriminate]. cbn [andb].
  destruct (startsWith _ ">") eqn:Hgt; [|discriminate]. intros [= <-].
  split; [intros E; rewrite E in Ht; discriminate|].
  apply startsWith_iff in Hgt as [post Hpost].
  replace (String.length (link_run rest) + 3)
    with (S (S (String.length (link_run rest) + 1))) by lia.
  change (slice (S (S (String.length (link_run rest) + 1))) ("<@" +:+ rest))
    with (slice (String.length (link_run rest) + 1) rest).
  pose proof (link_run_prefix rest) as Hp. rewrite Hpost in Hp.
  clear Hpost Ht. set (x := link_run rest) in *. clearbody x. subst rest.
  assert (slice (String.length x + 1) (x +:+ ">" +:+ post) = post) as ->.
  { change (String.length x + 1) with (String.length x + String.length ">").
    rewrite <- (length_app x ">"), <- (app_assoc x ">" post). apply slice_app. }
  reflexivity.
Qed.

Lemma link_at_absent (s : string) : ~ occurs "<@" s -> link_at s = None.
Proof.
  intros Hno. unfold link_at. destruct (startsWith s "<@") eqn:E; [|reflexivity].
  exfalso. now apply Hno, occurs_prefix.
Qed.

Lemma link_run_all (x : string) :
  all_chars is_link_char x = true -> link_run (x +:+ ">") = x.
Proof.
  induction x as [|c x IH]; [reflexivity|]. cbn [all_chars].
  intros [Hc Hx]%andb_true_iff. rewrite app_cons. cbn [link_run].
  now rewrite Hc, IH.
Qed.

Lemma occurs_app_r (pat pre s : string) : occurs pat s -> occurs pat (pre +:+ s).
Proof.
  intros (pre0 & post & ->). exists (pre +:+ pre0), post. now rewrite app_assoc.
Qed.

(** X21: The text [say] posts: a text without [<@] is posted as it is, as is
    a text none of whose links resolves; a link that the index resolves,
    by name or id, is posted with the [id] and the [name] of what was
    found.  What is found need not be a user: on an index built by [add]
    calls that holds no record with the id [constructor], the link
    [<@constructor>] finds the function [Object] and is posted as
    [<@undefined|Object>]. *)
Theorem posted_text_links (bot : SlackBot) :
  (forall t, ~ occurs "<@" t -> posted_text bot t = t) /\
  (forall t, (forall x, occurs ("<@" +:+ x +:+ ">") t ->
                        getByNameOrID x (users bot) = None) ->
             posted_text bot t = t) /\
  (forall x u, x <> EmptyString -> all_chars is_link_char x = true ->
               getByNameOrID x (users bot) = Some u ->
               posted_text bot ("<@" +:+ x +:+ ">")
                 = "<@" +:+ template_opt (entity_id u) +:+ "|"
                   +:+ template_opt (entity_name u) +:+ ">") /\
  (forall entities,
     users bot = index_of entities ->
     registered_under "CONSTRUCTOR" entities = [] ->
     posted_text bot "<@constructor>" = "<@undefined|Object>").
Proof.
  assert (forall x u, x <> EmptyString -> all_chars is_link_char x = true ->
               getByNameOrID x (users bot) = Some u ->
               posted_text bot ("<@" +:+ x +:+ ">")
                 = "<@" +:+ template_opt (entity_id u) +:+ "|"
                   +:+ template_opt (entity_name u) +:+ ">") as Hlink.
  { intros x u Hne Hx Hu. unfold posted_text.
    change (truthy ("<@" +:+ x +:+ ">")) with true. cbv iota.
    change ("<@" +:+ x +:+ ">") with (String "<" (String "@" (x +:+ ">"))).
    rewrite replace_links_cons.
    assert (link_at (String "<" (String "@" (x +:+ ">"))) = Some x) as ->.
    { unfold link_at. cbn [startsWith Ascii.eqb Bool.eqb slice].
      rewrite (link_run_all x Hx).
      change (slice (2 + String.length x) (String "<" (String "@" (x +:+ ">"))))
        with (slice (String.length x) (x +:+ ">")).
      rewrite slice_app. destruct x; [congruence | reflexivity]. }
    rewrite replace_links_skip.
    replace (String.length x + 2) with (S (String.length x + 1)) by lia.
    change (slice (S (String.length x + 1)) (String "@" (x +:+ ">")))
      with (slice (String.length x + 1) (x +:+ ">")).
    change (String.length x + 1) with (String.length x + String.length ">").
    rewrite <- (length_app x ">").
    rewrite <- (string_app_nil_r (x +:+ ">")) at 2.
    rewrite slice_app. cbn [replace_links]. rewrite string_app_nil_r.
    unfold link_replacement. now rewrite Hu. }
  split; [|split; [|split; [exact Hlink|]]].
  - intros t Hno. unfold posted_text. destruct (truthy t); [|reflexivity].
    induction t as [|c t IH]; [reflexivity|]. cbn [replace_links].
    rewrite (link_at_absent _ Hno). f_equal. apply IH.
    intros H. now apply Hno, occurs_cons.
  - intros t Hnone. unfold posted_text. destruct (truthy t); [|reflexivity].
    assert (forall n s, String.length s <= n ->
              (forall x, occurs ("<@" +:+ x +:+ ">") s ->
                         getByNameOrID x (users bot) = None) ->
              replace_links bot O s = s) as H;
      [|now apply (H (String.length t))].
    induction n as [|n IH]; intros s Hlen Hs.
    { destruct s; [reflexivity | simpl in Hlen; lia]. }
    destruct s as [|c s]; [reflexivity|]. rewrite replace_links_cons.
    destruct (link_at (String c s)) as [x|] eqn:E.
    + apply link_at_Some in E as [_ E]. rewrite replace_links_skip.
      assert (getByNameOrID x (users bot) = None) as Hx.
      { apply Hs. rewrite E. exists EmptyString, (slice (String.length x + 3) (String c s)).
        now rewrite app_nil_l, !app_assoc. }
      unfold link_replacement. rewrite Hx.
      assert (slice (String.length x + 2) s = slice (String.length x + 3) (String c s))
        as -> by (replace (String.length x + 3) with (S (String.length x + 2)) by lia;
                  reflexivity).
      rewrite IH.
      * rewrite !app_assoc. symmetry. exact E.
      * apply (f_equal String.length) in E. rewrite !length_app in E.
        simpl in E, Hlen. simpl. lia.
      * intros y Hy. apply Hs. rewrite E.
        rewrite <- !app_assoc. now apply occurs_app_r.
    + f_equal. apply IH; [simpl in Hlen; lia|].
      intros y Hy. now apply Hs, occurs_cons.
  - intros entities Hu Hreg.
    destruct (LookupSpec.index_of_tracks entities) as (_ & Hid & Hnames).
    destruct (Hid "CONSTRUCTOR") as [Hb _]. rewrite Hreg in Hb.
    destruct (Hnames "constructor") as [Hn _].
    rewrite (LookupSpec.under_key_inherited entities "constructor") in Hn
      by (apply LookupSpec.is_inherited_true; reflexivity).
    apply (Hlink "constructor" (Inherited "constructor"));
      [discriminate | reflexivity|].
    unfold getByNameOrID. rewrite Hu.
    change (toUpperCase "constructor") with "CONSTRUCTOR".
    change (toLowerCase "constructor") with "constructor".
    now rewrite (LookupSpec.get_property_missing _ _ Hb),
      (LookupSpec.get_property_missing _ _ Hn).
Qed.

(** *** The listener loops of the event handlers *)

(** X22: The [app.message] handler calls [handleMatch] once for every wanted
    listener with a matching pattern, in registration order, each time
    with that listener's first match; no listener stops the others. *)
Theorem message_listener_loop_calls (listeners : list SlackRTMEventListenerOptions)
    (chessterMessage : CommandMessage) (text : string)
    (isDirectMessage isBotMessage : bool) :
  let calls :=
    message_listener_loop listeners chessterMessage text isDirectMessage isBotMessage in
  map fst calls
    = filter (message_candidate text isDirectMessage isBotMessage) listeners /\
  Forall (first_match_call chessterMessage text) calls.
Proof.
  cbv zeta. induction listeners as [|l ls [IH1 IH2]]; [split; [reflexivity | constructor]|].
  cbn [message_listener_loop]. rewrite filter_cons.
  destruct (decide (message_candidate text isDirectMessage isBotMessage l))
    as [[Hw [m Hm]]|Hn].
  - rewrite Hw, Hm. cbn [negb map fst].
    split; [now f_equal|]. constructor; [now exists m | exact IH2].
  - destruct (message_isWanted l isDirectMessage isBotMessage) eqn:Hw;
      cbn [negb]; [|now split].
    destruct (Utils.first_matching_pattern text (patterns l)) as [m|] eqn:Hm; [|now split].
    exfalso. apply Hn. split; [exact Hw|]. rewrite Hm. now eexists.
Qed.

Lemma mention_pass_None (kind : ListenerType)
    (listeners : list SlackRTMEventListenerOptions)
    (chessterMessage : CommandMessage) (text : string) :
  mention_pass kind listeners chessterMessage text = None <->
  forall l, l ∈ listeners -> ~ mention_candidate kind text l.
Proof.
  induction listeners as [|l ls IH]; cbn [mention_pass].
  - split; [intros _ l Hl; inversion Hl | reflexivity].
  - destruct (bool_decide (type l = kind)) eqn:Hk;
      [apply bool_decide_eq_true in Hk | apply bool_decide_eq_false in Hk];
      cbn [andb].
    + destruct (wantsDirectMention l) eqn:Hw.
      * destruct (Utils.first_matching_pattern text (patterns l)) as [m|] eqn:Hm.
        { split; [discriminate|]. intros H. exfalso.
          apply (H l); [left|]. split; [exact Hk|]. split; [exact Hw|].
          rewrite Hm. now eexists. }
        rewrite IH. split.
        { intros H l' [->|Hl']%elem_of_cons; [|now apply H].
          intros (_ & _ & [? Hs]). rewrite Hm in Hs. discriminate. }
        intros H l' Hl'. apply H. now right.
      * rewrite IH. split.
        { intros H l' [->|Hl']%elem_of_cons; [|now apply H].
          intros (_ & Hw' & _). rewrite Hw in Hw'. discriminate. }
        intros H l' Hl'. apply H. now right.
    + rewrite IH. split.
      { intros H l' [->|Hl']%elem_of_cons; [|now apply H].
        now intros (Hk' & _). }
      intros H l' Hl'. apply H. now right.
Qed.

Lemma mention_pass_Some (kind : ListenerType)
    (listeners : list SlackRTMEventListenerOptions)
    (chessterMessage : CommandMessage) (text : string)
    (call : SlackRTMEventListenerOptions * CommandMessage) :
  mention_pass kind listeners chessterMessage text = Some call ->
  exists ls1 ls2,
    listeners = ls1 ++ fst call :: ls2 /\
    mention_candidate kind text (fst call) /\
    first_match_call chessterMessage text call /\
    forall l, l ∈ ls1 -> ~ mention_candidate kind text l.
Proof.
  induction listeners as [|l ls IH]; cbn [mention_pass]; [discriminate|].
  assert (mention_pass kind ls chessterMessage text = Some call ->
          ~ mention_candidate kind text l ->
          exists ls1 ls2,
            l :: ls = ls1 ++ fst call :: ls2 /\
            mention_candidate kind text (fst call) /\
            first_match_call chessterMessage text call /\
            forall l0, l0 ∈ ls1 -> ~ mention_candidate kind text l0) as Hrest.
  { intros (ls1 & ls2 & -> & Hc & Hf & Hn)%IH Hl.
    exists (l :: ls1), ls2. split; [reflexivity|]. split; [exact Hc|].
    split; [exact Hf|]. intros l0 [->|H0]%elem_of_cons; [exact Hl | now apply Hn]. }
  destruct (bool_decide (type l = kind)) eqn:Hk;
    [apply bool_decide_eq_true in Hk | apply bool_decide_eq_false in Hk];
    cbn [andb].
  - destruct (wantsDirectMention l) eqn:Hw.
    + destruct (Utils.first_matching_pattern text (patterns l)) as [m|] eqn:Hm.
      * intros [= <-]. exists [], ls. cbn [fst app].
        split; [reflexivity|]. split.
        { split; [exact Hk|]. split; [exact Hw|]. rewrite Hm. now eexists. }
        split; [now exists m|]. intros l0 H0. inversion H0.
      * intros H. apply Hrest; [exact H|].
        intros (_ & _ & [? Hs]). rewrite Hm in Hs. discriminate.
    + intros H. apply Hrest; [exact H|].
      intros (_ & Hw' & _). rewrite Hw in Hw'. discriminate.
  - intros H. apply Hrest; [exact H|]. now intros (Hk' & _).
Qed.

(** X23: The [app_mention] handler makes at most one [handleMatch] call.  It
    makes none exactly when no listener wanting direct mentions has a
    matching pattern.  The call goes to the first candidate of its kind,
    with its first match, and a league command is called only when no
    plain command is a candidate, wherever the two were registered. *)
Theorem mention_listener_loop_priority
    (listeners : list SlackRTMEventListenerOptions)
    (chessterMessage : CommandMessage) (text : string) :
  (mention_listener_loop listeners chessterMessage text = None <->
   forall l kind, l ∈ listeners -> ~ mention_candidate kind text l) /\
  (forall call,
     mention_listener_loop listeners chessterMessage text = Some call ->
     first_match_call chessterMessage text call /\
     (exists ls1 ls2,
        listeners = ls1 ++ fst call :: ls2 /\
        mention_candidate (type (fst call)) text (fst call) /\
        forall l, l ∈ ls1 -> ~ mention_candidate (type (fst call)) text l) /\
     (type (fst call) = league_command ->
      forall l, l ∈ listeners -> ~ mention_candidate command text l)).
Proof.
  unfold mention_listener_loop. split.
  - destruct (mention_pass command listeners chessterMessage text) as [c|] eqn:Hc.
    + split; [discriminate|]. intros H. exfalso.
      apply mention_pass_Some in Hc as (ls1 & ls2 & -> & Hcand & _).
      apply (H (fst c) command); [|exact Hcand].
      apply elem_of_app. right. left.
    + rewrite mention_pass_None. rewrite mention_pass_None in Hc. split.
      * intros H l [|]; [apply Hc | apply H].
      * intros H l. apply H.
  - intros call.
    destruct (mention_pass command listeners chessterMessage text) as [c|] eqn:Hc.
    + intros [= ->].
      apply mention_pass_Some in Hc as (ls1 & ls2 & Hls & Hcand & Hf & Hn).
      pose proof Hcand as (Hk & _). split; [exact Hf|]. split.
      * exists ls1, ls2. rewrite Hk. now split.
      * rewrite Hk. discriminate.
    + intros Hl. rewrite mention_pass_None in Hc.
      apply mention_pass_Some in Hl as (ls1 & ls2 & Hls & Hcand & Hf & Hn).
      pose proof Hcand as (Hk & _). split; [exact Hf|]. split.
      * exists ls1, ls2. rewrite Hk. now split.
      * intros _. exact Hc.
Qed.

(** *** Concrete runs *)

Import Reference.

Lemma getLeague_assigns_witness :
  let stale := set_league (Some league_4545)
                 (message_in lonewolf_games_private "U0164C6FXLK" "pairings") in
  exists m',
    getLeague (LM := test_LM) (FM := spec_fuzzy) test_bot stale false
      = ([], Return (m', Some league_lonewolf)) /\
    league m' = Some league_lonewolf.
Proof.
  intros stale.
  assert (getLeague (LM := test_LM) (FM := spec_fuzzy) test_bot stale false
          = ([], Return (set_league (Some league_lonewolf) stale,
                         Some league_lonewolf))) as H by reflexivity.
  destruct (getLeague_assigns (LM := test_LM) (FM := spec_fuzzy) test_bot stale false)
    as [Ha _].
  destruct (Ha _ _ _ H) as [_ Hm].
  eexists. split; [exact H|]. reflexivity.
Defined.

Lemma handleMatch_throws_iff_witness :
  outcome (handleMatch (LM := test_LM) (FM := spec_fuzzy) test_bot
             (replying_listener command None) ambiguous_message)
  = Throw (StopControllerError "Ambiguous leagues.").
Proof.
  apply (handleMatch_throws_iff (LM := test_LM) (FM := spec_fuzzy)).
  vm_compute. reflexivity.
Defined.

Lemma requiresLeague_gate_witness :
  replies (trace (handleMatch (LM := registry []) (FM := spec_fuzzy) test_bot
                    (replying_listener command (Some [requiresLeague]))
                    (message_in general "U0164C6FXLK" "pairings")))
  = [Said (Some "C0GENERAL") league_request].
Proof.
  destruct (requiresLeague_gate (LM := registry []) (FM := spec_fuzzy) test_bot
              (replying_listener command (Some [requiresLeague]))
              (message_in general "U0164C6FXLK" "pairings")
              (set_league None (message_in general "U0164C6FXLK" "pairings"), None)
              eq_refl eq_refl eq_refl) as [H _].
  destruct (H eq_refl) as [Hr _]. exact Hr.
Defined.

Lemma league_command_delivery_witness :
  outcome (handleMatch (LM := test_LM) (FM := spec_fuzzy) test_bot
             (replying_listener league_command None)
             (message_in dev_testing "U0164C6FXLK" "pairings"))
  = Return tt.
Proof.
  destruct (league_command_delivery (LM := test_LM) (FM := spec_fuzzy) test_bot
              (replying_listener league_command None)
              (message_in dev_testing "U0164C6FXLK" "pairings")
              (set_league (Some league_4545)
                 (message_in dev_testing "U0164C6FXLK" "pairings"))
              league_4545 (Own lakin) eq_refl eq_refl eq_refl eq_refl)
    as (_ & _ & _ & H).
  now rewrite (H [Said (Some "C0DEVTEST") "Here are the pairings."] eq_refl).
Defined.


Lemma spec_fuzzy_rank_sound (q : string) (cands : list string) (r : FuzzyResult) :
  r ∈ fuzzy_rankChoices (FuzzyModule := spec_fuzzy) q cands -> value r ∈ cands.
Proof.
  intros H. apply list_elem_of_In in H. apply list_elem_of_In.
  cbn [fuzzy_rankChoices spec_fuzzy] in H.
  apply in_map_iff in H as (c & <- & Hc). exact Hc.
Qed.

Lemma spec_fuzzy_best_sound (rs : list FuzzyResult) (r : FuzzyResult) :
  r ∈ fuzzy_findBestMatches (FuzzyModule := spec_fuzzy) rs -> r ∈ rs.
Proof.
  cbn [fuzzy_findBestMatches spec_fuzzy]. intros H.
  now apply list_elem_of_filter in H.
Qed.

Lemma findLeagueByMessageText_sound_matcher_witness :
  matches_known (LM := test_LM) (FM := spec_fuzzy) test_bot "team 960 pairings".
Proof.
  apply (findLeagueByMessageText_sound_matcher (LM := test_LM) (FM := spec_fuzzy)
           test_bot (message_in general "U0164C6FXLK" "team 960 pairings")
           spec_fuzzy_rank_sound spec_fuzzy_best_sound).
Defined.

(** The mention notation of a known id resolves to its user. *)
Lemma getSlackUserFromNameOrID_resolution_witness :
  getSlackUserFromNameOrID test_bot "<@U0164C6FXLK>" = ret (Some (Own lakin)).
Proof.
  destruct (getSlackUserFromNameOrID_resolution test_bot "<@U0164C6FXLK>")
    as (_ & _ & _ & H).
  rewrite (H "U0164C6FXLK"); [reflexivity | discriminate | reflexivity
                             | reflexivity | reflexivity].
Defined.

(** A member asking without naming a player is the target. *)
Lemma getLeagueMemberTarget_default_witness :
  getLeagueMemberTarget test_bot
    (set_member (Some (Own glbert)) (message_in dev_testing "U0200GLBERT" "rating"))
  = ret (Some (Own glbert)).
Proof.
  destruct (getLeagueMemberTarget_default test_bot
              (set_member (Some (Own glbert))
                 (message_in dev_testing "U0200GLBERT" "rating"))
              [lakin; glbert] eq_refl) as [_ H].
  destruct (H glbert eq_refl eq_refl) as (e & -> & [= <-] & _); [|reflexivity].
  apply elem_of_cons. right. left.
Defined.

(** A link by name is posted with the id in front; a link to
    [constructor] is rewritten although no user has that name. *)
Lemma posted_text_links_witness :
  posted_text test_bot "<@lakinwecker>" = "<@U0164C6FXLK|lakinwecker>" /\
  posted_text test_bot "<@constructor>" = "<@undefined|Object>".
Proof.
  destruct (posted_text_links test_bot) as (_ & _ & H & H').
  split.
  - refine (H "lakinwecker" (Own lakin) _ eq_refl eq_refl). discriminate.
  - apply (H' [lakin; glbert]); reflexivity.
Defined.

(** A league command registered first is passed over for the plain
    command registered after it. *)
Lemma mention_listener_loop_priority_witness :
  let m := message_in dev_testing "U0164C6FXLK" "pairings" in
  first_match_call m "pairings"
    (mention_listener command, set_matches [Some "pairings"] m) /\
  (type (mention_listener command) = league_command ->
   forall l, l ∈ [mention_listener league_command; mention_listener command] ->
             ~ mention_candidate command "pairings" l).
Proof.
  intros m.
  destruct (mention_listener_loop_priority
              [mention_listener league_command; mention_listener command]
              m "pairings") as [_ H].
  destruct (H (mention_listener command, set_matches [Some "pairings"] m) eq_refl)
    as (Hf & _ & Hp).
  split; [exact Hf | exact Hp].
Defined.

End SlackMore.
